(** * VoIP Calls dialog (ui/qt/voip_calls_dialog.cpp)

    A shallow embedding of the call table, its sort comparator, the
    frame-number filter builder and the flow-sequence selection, together
    with the properties the design document states about them. *)

From Stdlib Require Import ZArith NArith Ascii String DecimalString Permutation.
From stdpp Require Import base gmap sets list strings.

Local Open Scope Z_scope.

(** ** QString

    A [QString] is modelled by the bytes of its UTF-8 encoding.  Place
    markers and decimal digits are ASCII, so scanning bytes and scanning
    UTF-16 code units find the same markers. *)

Module QString.

Definition t := string.

(** [QChar::digitValue] on the ASCII digits. *)
Definition digitValue (c : ascii) : option N :=
  let n := N_of_ascii c in
  if ((48 <=? n) && (n <=? 57))%N then Some (n - 48)%N else None.

Definition is_percent (c : ascii) : bool := Ascii.eqb c "%".
Definition is_L (c : ascii) : bool := Ascii.eqb c "L".

(** One or two digits at the head of [s]: the marker number and how many
    characters it takes. *)
Definition escape_digits (s : string) : option (N * nat) :=
  match s with
  | String c2 s3 =>
      match digitValue c2 with
      | None => None
      | Some d =>
          match s3 with
          | String c3 _ =>
              match digitValue c3 with
              | Some d' => Some (10 * d + d', 2%nat)%N
              | None => Some (d, 1%nat)
              end
          | EmptyString => Some (d, 1%nat)
          end
      end
  | EmptyString => None
  end.

(** The place marker that starts at the head of [s], if any: ['%'], an
    optional ['L'], then one or two digits.  Returns the marker number and the
    length of the marker. *)
Definition escape_at (s : string) : option (N * nat) :=
  match s with
  | String c s1 =>
      if is_percent c then
        match s1 with
        | String c1 s2 =>
            if is_L c1 then
              match escape_digits s2 with
              | Some (n, len) => Some (n, S (S len))
              | None => None
              end
            else
              match escape_digits s1 with
              | Some (n, len) => Some (n, S len)
              | None => None
              end
        | EmptyString => None
        end
      else None
  | EmptyString => None
  end.

Inductive ArgToken :=
| Text (c : ascii)
| Escape (n : N) (raw : string).

(** The scan of [findArgEscapes]: literal characters and place markers, left
    to right.  [skip] counts the characters of a marker still to pass. *)
Fixpoint findArgEscapes (skip : nat) (s : string) : list ArgToken :=
  match s with
  | EmptyString => []
  | String c s' =>
      match skip with
      | S k => findArgEscapes k s'
      | O =>
          match escape_at s with
          | Some (n, len) =>
              Escape n (substring 0 len s) :: findArgEscapes (Nat.pred len) s'
          | None => Text c :: findArgEscapes O s'
          end
      end
  end.

Definition min_escape (ts : list ArgToken) : option N :=
  foldr (fun t acc =>
           match t, acc with
           | Text _, _ => acc
           | Escape n _, None => Some n
           | Escape n _, Some m => Some (N.min n m)
           end) None ts.

Definition replaceArgEscapes (m : N) (a : t) (ts : list ArgToken) : t :=
  foldr (fun t acc =>
           match t with
           | Text c => String c acc
           | Escape n raw => (if (n =? m)%N then a else raw) +:+ acc
           end) EmptyString ts.

(** [QString::arg(const QString &a)] with field width 0: every occurrence of
    the lowest-numbered place marker is replaced by [a]; a string without
    marker is returned as it is. *)
Definition arg (s a : t) : t :=
  let ts := findArgEscapes O s in
  match min_escape ts with
  | Some m => replaceArgEscapes m a ts
  | None => s
  end.

(** [QString::number(n)] and the integer overloads of [arg], base 10. *)
Definition number (n : Z) : t := NilZero.string_of_int (Z.to_int n).

Definition arg_int (s : t) (n : Z) : t := arg s (number n).

(** A string with no ['%'] in it. *)
Fixpoint plain (s : string) : bool :=
  match s with
  | EmptyString => true
  | String c s' => negb (is_percent c) && plain s'
  end.

End QString.

(** ** Data declared in the headers the dialog includes *)

(** [gboolean] is an [int]: zero is false, anything else is true. *)
Definition gboolean := Z.
Definition TRUE : gboolean := 1.
Definition FALSE : gboolean := 0.
Definition is_true_g (g : gboolean) : bool := negb (g =? 0).
Definition gboolean_of_bool (b : bool) : gboolean := if b then TRUE else FALSE.

Record nstime_t := { secs : Z; nsecs : Z }.

Record address := { addr_type : Z; addr_data : list Z }.

Record frame_data := { num : Z }.

Inductive voip_call_state :=
| VOIP_CALL_SETUP | VOIP_RINGING | VOIP_IN_CALL | VOIP_CANCELLED
| VOIP_COMPLETED | VOIP_REJECTED | VOIP_UNKNOWN.

Inductive voip_protocol :=
| VOIP_SIP | VOIP_ISUP | VOIP_H323 | VOIP_MGCP | VOIP_AC_ISDN | VOIP_AC_CAS
| MEDIA_T38 | TEL_H248 | TEL_SCCP | TEL_BSSMAP | TEL_RANAP | VOIP_UNISTIM
| VOIP_SKINNY | VOIP_IAX2 | VOIP_COMMON.

#[global] Instance voip_call_state_eq_dec : EqDecision voip_call_state.
Proof. solve_decision. Defined.

#[global] Instance voip_protocol_eq_dec : EqDecision voip_protocol.
Proof. solve_decision. Defined.

(** The fields of [isup_calls_info_t] and [h323_calls_info_t] the dialog
    reads. *)
Record isup_calls_info_t := { cic : Z; opc : Z; dpc : Z; ni : Z }.

Record h323_calls_info_t := {
  is_faststart_Setup : gboolean;
  is_faststart_Proc : gboolean;
  is_h245Tunneling : gboolean
}.

(** [prot_info] is a [void *] that the dialog casts according to the
    protocol tag, so its type is indexed by the tag. *)
Definition prot_info_t (p : voip_protocol) : Type :=
  match p with
  | VOIP_ISUP => isup_calls_info_t
  | VOIP_H323 => h323_calls_info_t
  | _ => unit
  end.

(** The fields of [voip_calls_info_t] the dialog reads.  The dialog never
    writes through a [voip_calls_info_t *], so a (non-null) pointer to a call
    is modelled by the record it points to. *)
Record voip_calls_info_t := {
  call_state : voip_call_state;
  from_identity : QString.t;
  to_identity : QString.t;
  initial_speaker : address;
  protocol : voip_protocol;
  protocol_name : option QString.t;
  call_comment : QString.t;
  call_num : Z;
  prot_info : prot_info_t protocol;
  npackets : Z;
  start_rel_ts : nstime_t;
  stop_rel_ts : nstime_t
}.

(** The fields of [seq_analysis_item_t] the dialog reads or writes; [fd] is
    taken as a valid pointer.  [conv_num], like [call_num], is a [guint16],
    the element type of the [QSet] that collects the selected calls. *)
Record seq_analysis_item_t := {
  fd : frame_data;
  conv_num : Z;
  display : gboolean
}.

(** A [GList] link sequence: each link carries a [data] pointer that may be
    [NULL].  A [GList *] is the list of links from that link on, [NULL] is
    the empty list.  A [GQueue *] is taken as a valid pointer and modelled by
    the links of the queue. *)
Definition GList (A : Type) := list (option A).

Definition g_queue_peek_nth_link {A} (queue : GList A) (n : nat) : GList A :=
  drop n queue.

Record seq_analysis_info_t := { items : GList seq_analysis_item_t }.

Record voip_calls_tapinfo_t := {
  callsinfos : GList voip_calls_info_t;
  graph_analysis : option seq_analysis_info_t
}.

(** Functions and tables the dialog calls but does not define. *)
Class External := {
  nstime_cmp : nstime_t -> nstime_t -> Z;
  cmp_address : address -> address -> Z;
  address_to_display : address -> QString.t;
  (** [QString::number(nstime_to_sec(ts), 'f', 6)] *)
  nstime_to_sec_f6 : nstime_t -> QString.t;
  voip_protocol_name : voip_protocol -> QString.t;
  voip_call_state_name : voip_call_state -> QString.t;
  (** the items of the graph after [sequence_analysis_list_sort] *)
  sequence_analysis_list_sort :
    GList seq_analysis_item_t -> GList seq_analysis_item_t;
  (** [QTreeWidgetItem::operator<] on the display texts of the sort column *)
  variantLessThan : QString.t -> QString.t -> bool
}.

(** ** VoipCallsTreeWidgetItem *)

Definition start_time_col_ : Z := 0.
Definition stop_time_col_ : Z := 1.
Definition initial_speaker_col_ : Z := 2.
Definition from_col_ : Z := 3.
Definition to_col_ : Z := 4.
Definition protocol_col_ : Z := 5.
Definition packets_col_ : Z := 6.
Definition state_col_ : Z := 7.
Definition comments_col_ : Z := 8.

(** [user_data] is [data(0, Qt::UserRole)], a possibly null call pointer;
    [texts] maps a column to its display text. *)
Record VoipCallsTreeWidgetItem := {
  user_data : option voip_calls_info_t;
  texts : gmap Z QString.t;
  isSelected : bool
}.

Definition text (it : VoipCallsTreeWidgetItem) (column : Z) : QString.t :=
  default EmptyString (texts it !! column).

Definition setText (column : Z) (s : QString.t)
    (it : VoipCallsTreeWidgetItem) : VoipCallsTreeWidgetItem :=
  {| user_data := user_data it;
     texts := <[column := s]> (texts it);
     isSelected := isSelected it |}.

(** ["\xe2\x86\x92"] from ui/utf8_entities.h *)
Definition UTF8_RIGHTWARDS_ARROW : QString.t :=
  String (ascii_of_N 226) (String (ascii_of_N 134) (String (ascii_of_N 146) EmptyString)).

(** [QObject::tr] with no translation installed. *)
Definition tr (s : QString.t) : QString.t := s.

Definition on_str : QString.t := tr "On".
Definition off_str : QString.t := tr "Off".

(** The comment of [drawData], by protocol. *)
Definition call_comments (call_info : voip_calls_info_t) : QString.t :=
  match protocol call_info as p return prot_info_t p -> QString.t with
  | VOIP_ISUP => fun isup_info =>
      QString.arg_int
        (QString.arg_int
           (QString.arg
              (QString.arg_int
                 (QString.arg_int "%1-%2 %3 %4-%5" (ni isup_info))
                 (opc isup_info))
              UTF8_RIGHTWARDS_ARROW)
           (ni isup_info))
        (dpc isup_info)
  | VOIP_H323 => fun h323_info =>
      let flag :=
        if decide (call_state call_info = VOIP_CALL_SETUP)
        then is_faststart_Setup h323_info
        else if is_true_g (is_faststart_Setup h323_info)
                && is_true_g (is_faststart_Proc h323_info)
             then TRUE else FALSE in
      QString.arg
        (QString.arg (tr "Tunneling: %1  Fast Start: %2")
           (if is_true_g (is_h245Tunneling h323_info) then on_str else off_str))
        (if is_true_g flag then on_str else off_str)
  | _ => fun _ => call_comment call_info
  end (prot_info call_info).

Section Item.
Context {E : External}.

Definition drawData (it : VoipCallsTreeWidgetItem) : VoipCallsTreeWidgetItem :=
  match user_data it with
  | None => it
  | Some call_info =>
      setText comments_col_ (call_comments call_info)
        (setText state_col_ (voip_call_state_name (call_state call_info))
           (setText packets_col_ (QString.number (npackets call_info))
              (setText protocol_col_
                 (match decide (protocol call_info = VOIP_COMMON),
                        protocol_name call_info with
                  | left _, Some name => name
                  | _, _ => voip_protocol_name (protocol call_info)
                  end)
                 (setText to_col_ (to_identity call_info)
                    (setText from_col_ (from_identity call_info)
                       (setText initial_speaker_col_
                          (address_to_display (initial_speaker call_info))
                          (setText stop_time_col_
                             (nstime_to_sec_f6 (stop_rel_ts call_info))
                             (setText start_time_col_
                                (nstime_to_sec_f6 (start_rel_ts call_info))
                                it))))))))
  end.

(** The constructor: store the call pointer, then [drawData]. *)
Definition new_VoipCallsTreeWidgetItem (call_info : option voip_calls_info_t)
    : VoipCallsTreeWidgetItem :=
  drawData {| user_data := call_info; texts := ∅; isSelected := false |}.

(** [QTreeWidgetItem::operator<]: the display texts of the sort column. *)
Definition QTreeWidgetItem_operator_lt (sortColumn : Z)
    (this other : VoipCallsTreeWidgetItem) : bool :=
  variantLessThan (text this sortColumn) (text other sortColumn).

Definition operator_lt (sortColumn : Z)
    (this other : VoipCallsTreeWidgetItem) : bool :=
  match user_data this, user_data other with
  | Some this_call_info, Some other_call_info =>
      if sortColumn =? start_time_col_ then
        nstime_cmp (start_rel_ts this_call_info) (start_rel_ts other_call_info) <? 0
      else if sortColumn =? stop_time_col_ then
        nstime_cmp (stop_rel_ts this_call_info) (stop_rel_ts other_call_info) <? 0
      else if sortColumn =? initial_speaker_col_ then
        cmp_address (initial_speaker this_call_info)
          (initial_speaker other_call_info) <? 0
      else if sortColumn =? packets_col_ then
        npackets this_call_info <? npackets other_call_info
      else QTreeWidgetItem_operator_lt sortColumn this other
  | _, _ => false
  end.

End Item.

(** ** Stable sorting

    A stable insertion sort stands for the stable sorts of the libraries
    ([std::stable_sort] in the view, [g_queue_sort] on the graph items): an
    element goes before the first one that is not less than it. *)

Section StableSort.
Context {A : Type} (lt : A -> A -> bool).

Fixpoint stable_insert (x : A) (l : list A) : list A :=
  match l with
  | [] => [x]
  | y :: l' => if lt y x then y :: stable_insert x l' else x :: y :: l'
  end.

Definition stable_sort (l : list A) : list A := foldr stable_insert [] l.

End StableSort.

(** ** The call tree widget *)

Inductive SortOrder := AscendingOrder | DescendingOrder.

(** What the widget was asked to do, each with the value [sortingEnabled]
    had when it was asked. *)
Inductive TreeOp :=
| OpSetSortingEnabled (enable : bool)
| OpInsertItem
| OpItemChanged (row : nat)
| OpResizeColumn (column : nat).

Record QTreeWidget := {
  topLevelItems : list VoipCallsTreeWidgetItem;
  sortingEnabled : bool;
  sortColumn : Z;
  sortOrder : SortOrder;
  columnCount : nat;
  history : list (TreeOp * bool)
}.

Definition topLevelItemCount (tree : QTreeWidget) : nat :=
  length (topLevelItems tree).

Definition selectedItems (tree : QTreeWidget) : list VoipCallsTreeWidgetItem :=
  filter (fun it => isSelected it = true) (topLevelItems tree).

Definition with_items (tree : QTreeWidget)
    (its : list VoipCallsTreeWidgetItem) (op : TreeOp) : QTreeWidget :=
  {| topLevelItems := its;
     sortingEnabled := sortingEnabled tree;
     sortColumn := sortColumn tree;
     sortOrder := sortOrder tree;
     columnCount := columnCount tree;
     history := history tree ++ [(op, sortingEnabled tree)] |}.

Section Tree.
Context {E : External}.

(** The comparison the view sorts with: [itemLessThan] in ascending order,
    [itemGreaterThan] in descending order. *)
Definition itemCompare (column : Z) (order : SortOrder)
    (left right : VoipCallsTreeWidgetItem) : bool :=
  match order with
  | AscendingOrder => operator_lt column left right
  | DescendingOrder => operator_lt column right left
  end.

(** The view sorts its rows with a stable sort. *)
Definition sortItems (column : Z) (order : SortOrder)
    (l : list VoipCallsTreeWidgetItem) : list VoipCallsTreeWidgetItem :=
  stable_sort (itemCompare column order) l.

(** Rows are kept sorted while sorting is enabled. *)
Definition ensureSorted (tree : QTreeWidget)
    (its : list VoipCallsTreeWidgetItem) : list VoipCallsTreeWidgetItem :=
  if sortingEnabled tree
  then sortItems (sortColumn tree) (sortOrder tree) its
  else its.

(** [QTreeView::setSortingEnabled]: enabling sorts by the current sort
    column and order. *)
Definition setSortingEnabled (enable : bool) (tree : QTreeWidget) : QTreeWidget :=
  {| topLevelItems :=
       if enable
       then sortItems (sortColumn tree) (sortOrder tree) (topLevelItems tree)
       else topLevelItems tree;
     sortingEnabled := enable;
     sortColumn := sortColumn tree;
     sortOrder := sortOrder tree;
     columnCount := columnCount tree;
     history := history tree ++ [(OpSetSortingEnabled enable, sortingEnabled tree)] |}.

(** [new VoipCallsTreeWidgetItem(tree, call_info)]: a new last row. *)
Definition addTopLevelItem (call_info : option voip_calls_info_t)
    (tree : QTreeWidget) : QTreeWidget :=
  with_items tree
    (ensureSorted tree (topLevelItems tree ++ [new_VoipCallsTreeWidgetItem call_info]))
    OpInsertItem.

(** [drawData] on the item of one row. *)
Definition drawData_row (row : nat) (tree : QTreeWidget) : QTreeWidget :=
  match topLevelItems tree !! row with
  | Some vcti =>
      with_items tree
        (ensureSorted tree (<[row := drawData vcti]> (topLevelItems tree)))
        (OpItemChanged row)
  | None => tree
  end.

Definition resizeColumnToContents (i : nat) (tree : QTreeWidget) : QTreeWidget :=
  with_items tree (topLevelItems tree) (OpResizeColumn i).

End Tree.

(** ** The dialog *)

Record VoipCallsDialog := {
  callTreeWidget : QTreeWidget;
  tapinfo_ : voip_calls_tapinfo_t;
  file_closed_ : bool;
  prepare_button_enabled : bool;
  sequence_button_enabled : bool;
  player_button_enabled : bool;
  player_button_text : QString.t
}.

(** [have_ga_items] tests the graph pointer and the queue pointer of the
    graph; the latter is taken as valid. *)
Definition updateWidgets (d : VoipCallsDialog) : VoipCallsDialog :=
  let selected := negb (Nat.eqb (length (selectedItems (callTreeWidget d))) 0) in
  let have_ga_items :=
    match graph_analysis (tapinfo_ d) with
    | Some _ => true
    | None => false
    end in
  {| callTreeWidget := callTreeWidget d;
     tapinfo_ := tapinfo_ d;
     file_closed_ := file_closed_ d;
     prepare_button_enabled := selected && have_ga_items;
     sequence_button_enabled := selected && have_ga_items;
     player_button_enabled := false;
     player_button_text := tr "No Audio" |}.

(** What a slot did: it returned a value, or it read through a null
    pointer. *)
Inductive outcome (A : Type) :=
| Returned (a : A)
| NullDereference.
Arguments Returned {A} a.
Arguments NullDereference {A}.

(** The [foreach] over the selected items that fills [selected_calls]. *)
Fixpoint collect_selected_calls (sel : list VoipCallsTreeWidgetItem)
    (selected_calls : gset Z) : outcome (gset Z) :=
  match sel with
  | [] => Returned selected_calls
  | ti :: rest =>
      match user_data ti with
      | Some call_info =>
          collect_selected_calls rest ({[ call_num call_info ]} ∪ selected_calls)
      | None => NullDereference
      end
  end.

Section Dialog.
Context {E : External}.

(** The loop "Add any missing items". *)
Fixpoint add_missing_items (cur_call : GList voip_calls_info_t)
    (tree : QTreeWidget) : QTreeWidget :=
  match cur_call with
  | Some call_info :: next =>
      add_missing_items next (addTopLevelItem (Some call_info) tree)
  | None :: _ => tree
  | [] => tree
  end.

(** The loop "Fill in the tree": the iterator visits the rows from [row]
    on, [n] of them. *)
Fixpoint fill_in_tree (n : nat) (row : nat) (tree : QTreeWidget) : QTreeWidget :=
  match n with
  | O => tree
  | S n' => fill_in_tree n' (S row) (drawData_row row tree)
  end.

(** The loop "Resize columns". *)
Fixpoint resize_columns (n : nat) (i : nat) (tree : QTreeWidget) : QTreeWidget :=
  match n with
  | O => tree
  | S n' => resize_columns n' (S i) (resizeColumnToContents i tree)
  end.

Definition updateCalls_tree (calls : GList voip_calls_info_t)
    (tree : QTreeWidget) : QTreeWidget :=
  let cur_call := g_queue_peek_nth_link calls (topLevelItemCount tree) in
  let tree := setSortingEnabled false tree in
  let tree := add_missing_items cur_call tree in
  let tree := fill_in_tree (topLevelItemCount tree) 0 tree in
  let tree := resize_columns (columnCount tree) 0 tree in
  setSortingEnabled true tree.

Definition updateCalls (d : VoipCallsDialog) : VoipCallsDialog :=
  updateWidgets
    {| callTreeWidget :=
         updateCalls_tree (callsinfos (tapinfo_ d)) (callTreeWidget d);
       tapinfo_ := tapinfo_ d;
       file_closed_ := file_closed_ d;
       prepare_button_enabled := prepare_button_enabled d;
       sequence_button_enabled := sequence_button_enabled d;
       player_button_enabled := player_button_enabled d;
       player_button_text := player_button_text d |}.

(** The walk over the graph items in [prepareFilter]. *)
Fixpoint prepareFilter_walk (selected_calls : gset Z)
    (cur_ga_item : GList seq_analysis_item_t)
    (filter_str : QString.t) (or_prepend : QString.t) : QString.t :=
  match cur_ga_item with
  | Some ga_item :: next =>
      if decide (conv_num ga_item ∈ selected_calls) then
        prepareFilter_walk selected_calls next
          (filter_str +:+
             QString.arg_int (QString.arg "%1frame.number == %2" or_prepend)
               (num (fd ga_item)))
          " or "
      else prepareFilter_walk selected_calls next filter_str or_prepend
  | None :: _ => filter_str
  | [] => filter_str
  end.

(** [prepareFilter]: [Returned None] when it returns without a signal,
    [Returned (Some f)] when it emits [updateFilter(f)]. *)
Definition prepareFilter (d : VoipCallsDialog) : outcome (option QString.t) :=
  match selectedItems (callTreeWidget d), graph_analysis (tapinfo_ d) with
  | [], _ => Returned None
  | _ :: _, None => Returned None
  | (_ :: _) as sel, Some ga =>
      match collect_selected_calls sel ∅ with
      | NullDereference => NullDereference
      | Returned selected_calls =>
          Returned (Some (prepareFilter_walk selected_calls
                            (g_queue_peek_nth_link (items ga) 0) EmptyString EmptyString))
      end
  end.

(** The walk over the graph items in [showSequence]. *)
Fixpoint showSequence_walk (selected_calls : gset Z)
    (cur_ga_item : GList seq_analysis_item_t) : GList seq_analysis_item_t :=
  match cur_ga_item with
  | Some ga_item :: next =>
      Some {| fd := fd ga_item;
              conv_num := conv_num ga_item;
              display :=
                gboolean_of_bool
                  (bool_decide (conv_num ga_item ∈ selected_calls)) |}
      :: showSequence_walk selected_calls next
  | None :: next => None :: next
  | [] => []
  end.

(** [showSequence]: the dialog afterwards and the graph handed to the new
    [SequenceDialog], if one was made. *)
Definition showSequence (d : VoipCallsDialog)
    : outcome (VoipCallsDialog * option seq_analysis_info_t) :=
  if file_closed_ d then Returned (d, None) else
  match collect_selected_calls (selectedItems (callTreeWidget d)) ∅ with
  | NullDereference => NullDereference
  | Returned selected_calls =>
      match graph_analysis (tapinfo_ d) with
      | None => NullDereference
      | Some ga =>
          let sorted := sequence_analysis_list_sort (items ga) in
          let ga' :=
            {| items :=
                 showSequence_walk selected_calls
                   (g_queue_peek_nth_link sorted 0) |} in
          Returned
            ({| callTreeWidget := callTreeWidget d;
                tapinfo_ := {| callsinfos := callsinfos (tapinfo_ d);
                               graph_analysis := Some ga' |};
                file_closed_ := file_closed_ d;
                prepare_button_enabled := prepare_button_enabled d;
                sequence_button_enabled := sequence_button_enabled d;
                player_button_enabled := player_button_enabled d;
                player_button_text := player_button_text d |},
             Some ga')
      end
  end.

End Dialog.

(** ** The helpers the dialog calls, as the design document describes them *)

Definition nstime_nanos (t : nstime_t) : Z := secs t * 1000000000 + nsecs t.

Definition Z_of_comparison (c : comparison) : Z :=
  match c with Lt => -1 | Eq => 0 | Gt => 1 end.

(** Modelled from the spec: [nstime_cmp] (wsutil/nstime.c is not under src/),
    "numeric comparison of the relative timestamp (seconds, sub-second
    resolution)". *)
Definition spec_nstime_cmp (a b : nstime_t) : Z :=
  Z_of_comparison (nstime_nanos a ?= nstime_nanos b).

Fixpoint bytes_compare (l1 l2 : list Z) : comparison :=
  match l1, l2 with
  | [], [] => Eq
  | [], _ :: _ => Lt
  | _ :: _, [] => Gt
  | x :: l1', y :: l2' =>
      match x ?= y with
      | Eq => bytes_compare l1' l2'
      | c => c
      end
  end.

Definition address_repr (a : address) : list Z := addr_type a :: addr_data a.

(** Modelled from the spec: [cmp_address] (epan/address.h is not under src/),
    "address comparison using a total ordering over address values (e.g.
    byte-wise over normalized address representation)". *)
Definition spec_cmp_address (a b : address) : Z :=
  Z_of_comparison (bytes_compare (address_repr a) (address_repr b)).

(** Modelled from the spec: the comparison [QTreeWidgetItem::operator<] makes
    on two display texts, "case-sensitive lexical string comparison of the
    rendered display text for that column". *)
Definition spec_variantLessThan (s1 s2 : QString.t) : bool :=
  match String.compare s1 s2 with Lt => true | _ => false end.

Definition ga_item_lt (a b : option seq_analysis_item_t) : bool :=
  match a, b with
  | Some x, Some y => num (fd x) <? num (fd y)
  | _, _ => false
  end.

(** Modelled from the spec: [sequence_analysis_list_sort]
    (ui/tap-sequence-analysis.c is not under src/), "reorders events by
    (timestamp-implied-order)", "must be stable and idempotent"; the order of
    capture is the order of the frame numbers. *)
Definition spec_sequence_analysis_list_sort
    (l : GList seq_analysis_item_t) : GList seq_analysis_item_t :=
  stable_sort ga_item_lt l.

(** The name tables of ui/voip_calls.c, for the examples. *)
Definition sample_protocol_name (p : voip_protocol) : QString.t :=
  match p with
  | VOIP_SIP => "SIP" | VOIP_ISUP => "ISUP" | VOIP_H323 => "H.323"
  | VOIP_MGCP => "MGCP" | VOIP_AC_ISDN => "AC_ISDN" | VOIP_AC_CAS => "AC_CAS"
  | MEDIA_T38 => "T.38" | TEL_H248 => "H.248" | TEL_SCCP => "SCCP"
  | TEL_BSSMAP => "BSSMAP" | TEL_RANAP => "RANAP" | VOIP_UNISTIM => "UNISTIM"
  | VOIP_SKINNY => "SKINNY" | VOIP_IAX2 => "IAX2" | VOIP_COMMON => "VoIP"
  end.

Definition sample_call_state_name (s : voip_call_state) : QString.t :=
  match s with
  | VOIP_CALL_SETUP => "CALL SETUP" | VOIP_RINGING => "RINGING"
  | VOIP_IN_CALL => "IN CALL" | VOIP_CANCELLED => "CANCELLED"
  | VOIP_COMPLETED => "COMPLETED" | VOIP_REJECTED => "REJECTED"
  | VOIP_UNKNOWN => "UNKNOWN"
  end.

(** Dotted decimal bytes, for the examples. *)
Definition sample_address_to_display (a : address) : QString.t :=
  String.concat "." (QString.number <$> addr_data a).

(** Seconds, a point and the microseconds, for the examples. *)
Definition sample_time_text (t : nstime_t) : QString.t :=
  let us := QString.number (nsecs t / 1000) in
  QString.number (secs t) +:+ "."
    +:+ String.concat EmptyString (replicate (6 - String.length us) "0") +:+ us.

Definition spec_External : External :=
  {| nstime_cmp := spec_nstime_cmp;
     cmp_address := spec_cmp_address;
     address_to_display := sample_address_to_display;
     nstime_to_sec_f6 := sample_time_text;
     voip_protocol_name := sample_protocol_name;
     voip_call_state_name := sample_call_state_name;
     sequence_analysis_list_sort := spec_sequence_analysis_list_sort;
     variantLessThan := spec_variantLessThan |}.

(** What the properties ask of the helpers. *)
Definition strict_order {A} (lt : A -> A -> Prop) : Prop :=
  (forall a, ~ lt a a) /\ (forall a b c, lt a b -> lt b c -> lt a c).

Record ExternalOrders (E : External) : Prop := {
  nstime_cmp_order : strict_order (fun a b => nstime_cmp a b < 0);
  cmp_address_order : strict_order (fun a b => cmp_address a b < 0);
  variantLessThan_order : strict_order (fun a b => variantLessThan a b = true)
}.

Definition sort_permutes (E : External) : Prop :=
  forall l, sequence_analysis_list_sort l ≡ₚ l.

(** ** Vocabulary of the properties *)

(** The events a walk over a [GList] reaches: those before the first link
    without data. *)
Fixpoint leading_data {A} (l : GList A) : list A :=
  match l with
  | Some x :: l' => x :: leading_data l'
  | _ => []
  end.

Definition filter_clause (e : seq_analysis_item_t) : QString.t :=
  "frame.number == " +:+ QString.number (num (fd e)).

Definition matching_events (selected : gset Z)
    (evs : list seq_analysis_item_t) : list seq_analysis_item_t :=
  filter (fun e => conv_num e ∈ selected) evs.

Definition has_call (it : VoipCallsTreeWidgetItem) : Prop :=
  is_Some (user_data it).

(** The call numbers of the selected rows. *)
Definition selected_call_ids (tree : QTreeWidget) : gset Z :=
  list_to_set (omap (fun it => call_num <$> user_data it) (selectedItems tree)).

Definition isup_info_of (c : voip_calls_info_t) : option isup_calls_info_t :=
  match protocol c as p return prot_info_t p -> option isup_calls_info_t with
  | VOIP_ISUP => fun i => Some i
  | _ => fun _ => None
  end (prot_info c).

Definition h323_info_of (c : voip_calls_info_t) : option h323_calls_info_t :=
  match protocol c as p return prot_info_t p -> option h323_calls_info_t with
  | VOIP_H323 => fun i => Some i
  | _ => fun _ => None
  end (prot_info c).

Definition on_off (b : bool) : QString.t := if b then "On" else "Off".

(** An event with its display flag set from the selection. *)
Definition mark_display (selected : gset Z)
    (e : seq_analysis_item_t) : seq_analysis_item_t :=
  {| fd := fd e;
     conv_num := conv_num e;
     display := gboolean_of_bool (bool_decide (conv_num e ∈ selected)) |}.

Definition event_key (e : seq_analysis_item_t) : frame_data * Z :=
  (fd e, conv_num e).


(** The clauses after the first one, each behind its join token. *)
Definition or_joined_tail (clauses : list QString.t) : QString.t :=
  foldr (fun c acc => " or " +:+ c +:+ acc) EmptyString clauses.

(** ** Sample data for the examples *)

Definition sample_address : address :=
  {| addr_type := 2; addr_data := [10; 0; 0; 1] |}.

Definition sample_call (n : Z) (start stop : Z) (packets : Z) : voip_calls_info_t :=
  {| call_state := VOIP_IN_CALL;
     from_identity := "alice";
     to_identity := "bob";
     initial_speaker := sample_address;
     protocol := VOIP_SIP;
     protocol_name := None;
     call_comment := "INVITE 200";
     call_num := n;
     prot_info := tt;
     npackets := packets;
     start_rel_ts := {| secs := start; nsecs := 0 |};
     stop_rel_ts := {| secs := stop; nsecs := 500000 |} |}.

Definition sample_isup_info : isup_calls_info_t :=
  {| cic := 5; opc := 2; dpc := 3; ni := 1 |}.

Definition sample_isup_call : voip_calls_info_t :=
  {| call_state := VOIP_IN_CALL;
     from_identity := "5551234";
     to_identity := "5556789";
     initial_speaker := sample_address;
     protocol := VOIP_ISUP;
     protocol_name := None;
     call_comment := EmptyString;
     call_num := 3;
     prot_info := sample_isup_info;
     npackets := 2;
     start_rel_ts := {| secs := 1; nsecs := 0 |};
     stop_rel_ts := {| secs := 2; nsecs := 0 |} |}.

Definition sample_h323_info : h323_calls_info_t :=
  {| is_faststart_Setup := TRUE;
     is_faststart_Proc := FALSE;
     is_h245Tunneling := FALSE |}.

Definition sample_h323_call : voip_calls_info_t :=
  {| call_state := VOIP_CALL_SETUP;
     from_identity := "h323:a";
     to_identity := "h323:b";
     initial_speaker := sample_address;
     protocol := VOIP_H323;
     protocol_name := None;
     call_comment := EmptyString;
     call_num := 4;
     prot_info := sample_h323_info;
     npackets := 1;
     start_rel_ts := {| secs := 1; nsecs := 0 |};
     stop_rel_ts := {| secs := 1; nsecs := 0 |} |}.

Definition sample_row (selected : bool) (c : voip_calls_info_t)
    : VoipCallsTreeWidgetItem :=
  {| user_data := Some c; texts := ∅; isSelected := selected |}.

Definition sample_event (conv frame : Z) : seq_analysis_item_t :=
  {| fd := {| num := frame |}; conv_num := conv; display := TRUE |}.

(** Frames 3, 7 and 9 belong to call 1, the others to call 2. *)
Definition sample_events : list seq_analysis_item_t :=
  [sample_event 1 3; sample_event 2 4; sample_event 1 7;
   sample_event 2 8; sample_event 1 9].

Definition sample_tree (rows : list VoipCallsTreeWidgetItem) : QTreeWidget :=
  {| topLevelItems := rows;
     sortingEnabled := true;
     sortColumn := start_time_col_;
     sortOrder := AscendingOrder;
     columnCount := 9;
     history := [] |}.

Definition sample_dialog (rows : list VoipCallsTreeWidgetItem)
    (calls : GList voip_calls_info_t)
    (nodes : GList seq_analysis_item_t) : VoipCallsDialog :=
  {| callTreeWidget := sample_tree rows;
     tapinfo_ := {| callsinfos := calls;
                    graph_analysis := Some {| items := nodes |} |};
     file_closed_ := false;
     prepare_button_enabled := false;
     sequence_button_enabled := false;
     player_button_enabled := false;
     player_button_text := EmptyString |}.

Definition call_1 : voip_calls_info_t := sample_call 1 10 20 4.
Definition call_2 : voip_calls_info_t := sample_call 2 10 25 6.

(** Call 1 selected, call 2 not. *)
Definition dialog_one_selected : VoipCallsDialog :=
  sample_dialog [sample_row true call_1; sample_row false call_2]
    [Some call_1; Some call_2] (Some <$> sample_events).

(** Nothing selected. *)
Definition dialog_none_selected : VoipCallsDialog :=
  sample_dialog [sample_row false call_1; sample_row false call_2]
    [Some call_1; Some call_2] (Some <$> sample_events).

Definition call_5 : voip_calls_info_t := sample_call 5 30 40 2.

(** Call 5 selected; no event belongs to it. *)
Definition dialog_unmatched_selected : VoipCallsDialog :=
  sample_dialog [sample_row true call_5] [Some call_5]
    (Some <$> sample_events).

(** Rows for the calls 5, 1 and 2, with 2, 4 and 6 packets. *)
Definition row_5 : VoipCallsTreeWidgetItem := sample_row false call_5.
Definition row_1 : VoipCallsTreeWidgetItem := sample_row false call_1.
Definition row_2 : VoipCallsTreeWidgetItem := sample_row false call_2.

(** A tree with other rows and more history, everything else kept. *)
Definition set_rows (tree : QTreeWidget)
    (its : list VoipCallsTreeWidgetItem) (ops : list (TreeOp * bool))
    : QTreeWidget :=
  {| topLevelItems := its;
     sortingEnabled := sortingEnabled tree;
     sortColumn := sortColumn tree;
     sortOrder := sortOrder tree;
     columnCount := columnCount tree;
     history := history tree ++ ops |}.

(** The rows made for the calls a walk reaches. *)
Definition new_rows {E : External} (cur_call : GList voip_calls_info_t)
    : list VoipCallsTreeWidgetItem :=
  (fun c => new_VoipCallsTreeWidgetItem (Some c)) <$> leading_data cur_call.

(** The history one run of [updateCalls] adds: sorting off, [k] rows added,
    [n] rows redrawn, [cols] columns resized, sorting on. *)
Definition refresh_history (was_enabled : bool) (k n cols : nat)
    : list (TreeOp * bool) :=
  (OpSetSortingEnabled false, was_enabled)
  :: replicate k (OpInsertItem, false)
  ++ ((fun r => (OpItemChanged r, false)) <$> seq 0 n)
  ++ ((fun c => (OpResizeColumn c, false)) <$> seq 0 cols)
  ++ [(OpSetSortingEnabled true, false)].

(** No row is less than the row before it. *)
Fixpoint locally_sorted {A} (lt : A -> A -> bool) (l : list A) : Prop :=
  match l with
  | x :: l' =>
      match l' with
      | y :: _ => lt y x = false /\ locally_sorted lt l'
      | [] => True
      end
  | [] => True
  end.

(** No row yet; the third link of the call list has no data. *)
Definition dialog_fresh : VoipCallsDialog :=
  sample_dialog [] [Some call_2; Some call_1; None; Some call_5]
    (Some <$> sample_events).

Definition row_isup : VoipCallsTreeWidgetItem := sample_row false sample_isup_call.
Definition row_h323 : VoipCallsTreeWidgetItem := sample_row false sample_h323_call.

(** The texts [drawData] sets for a call, last one set first. *)
Definition row_texts {E : External} (c : voip_calls_info_t)
    : list (Z * QString.t) :=
  [ (comments_col_, call_comments c);
    (state_col_, voip_call_state_name (call_state c));
    (packets_col_, QString.number (npackets c));
    (protocol_col_,
     match decide (protocol c = VOIP_COMMON), protocol_name c with
     | left _, Some name => name
     | _, _ => voip_protocol_name (protocol c)
     end);
    (to_col_, to_identity c);
    (from_col_, from_identity c);
    (initial_speaker_col_, address_to_display (initial_speaker c));
    (stop_time_col_, nstime_to_sec_f6 (stop_rel_ts c));
    (start_time_col_, nstime_to_sec_f6 (start_rel_ts c)) ].

Definition set_texts (kvs : list (Z * QString.t))
    (it : VoipCallsTreeWidgetItem) : VoipCallsTreeWidgetItem :=
  foldr (fun kv => setText kv.1 kv.2) it kvs.

(** ** The button box *)

Inductive QAbstractButton :=
| prepare_button_
| sequence_button_
| player_button_
| other_button.

(** [on_buttonBox_clicked]: the dialog afterwards, the filter emitted with
    [updateFilter] if any, and the graph handed to a new [SequenceDialog] if
    any. *)
Definition on_buttonBox_clicked {E : External} (button : QAbstractButton)
    (d : VoipCallsDialog)
    : outcome (VoipCallsDialog * option QString.t * option seq_analysis_info_t) :=
  match button with
  | prepare_button_ =>
      match prepareFilter d with
      | Returned f => Returned (d, f, None)
      | NullDereference => NullDereference
      end
  | sequence_button_ =>
      match showSequence d with
      | Returned (d', ga) => Returned (d', None, ga)
      | NullDereference => NullDereference
      end
  | _ => Returned (d, None, None)
  end.

(** Neither row is less than the other. *)
Definition tied {E : External} (column : Z)
    (a b : VoipCallsTreeWidgetItem) : Prop :=
  operator_lt column a b = false /\ operator_lt column b a = false.

(** A row whose call pointer is null. *)
Definition row_without_call : VoipCallsTreeWidgetItem :=
  {| user_data := None; texts := ∅; isSelected := true |}.

(** Frame and call number of each link, [None] for a link without data. *)
Definition link_keys (nodes : GList seq_analysis_item_t)
    : list (option (frame_data * Z)) :=
  (fun link : option seq_analysis_item_t => event_key <$> link)
    <$> (nodes : list (option seq_analysis_item_t)).

(** The rows of the table after [updateCalls]. *)
Definition rows_after_refresh {E : External} (d : VoipCallsDialog)
    : list VoipCallsTreeWidgetItem :=
  topLevelItems (callTreeWidget (updateCalls d)).

(** The calls [updateCalls] makes rows for: those from the link at the row
    count on, up to the first link without data. *)
Definition calls_to_add (d : VoipCallsDialog) : list voip_calls_info_t :=
  leading_data
    (g_queue_peek_nth_link (callsinfos (tapinfo_ d))
       (topLevelItemCount (callTreeWidget d))).

(** [x] comes before [y] in [l]. *)
Definition precedes {A} (x y : A) (l : list A) : Prop :=
  exists l1 l2 l3, l = l1 ++ x :: l2 ++ y :: l3.

(** What is not before is after or equal: asked of the helpers for the ties
    of the comparator to be transitive. *)
Definition negatively_transitive {A} (lt : A -> A -> Prop) : Prop :=
  forall a b c, ~ lt a b -> ~ lt b c -> ~ lt a c.

Record ExternalWeakOrders (E : External) : Prop := {
  nstime_cmp_weak : negatively_transitive (fun a b => nstime_cmp a b < 0);
  cmp_address_weak : negatively_transitive (fun a b => cmp_address a b < 0);
  variantLessThan_weak :
    negatively_transitive (fun a b => variantLessThan a b = true)
}.
(** * Properties *)

(** ** Place markers *)

Example arg_demo :
  QString.arg_int (QString.arg "%1frame.number == %2" " or ") 42
  = " or frame.number == 42".
Proof. reflexivity. Qed.

Example arg_lowest_first :
  QString.arg (QString.arg "%2/%1/%2" "a") "b" = "b/a/b".
Proof. reflexivity. Qed.

Lemma append_empty_r (s : string) : s +:+ EmptyString = s.
Proof.
  induction s as [|c s IH]; [reflexivity|].
  change (String c (s +:+ EmptyString) = String c s). by rewrite IH.
Qed.

Lemma append_assoc (s1 s2 s3 : string) :
  (s1 +:+ s2) +:+ s3 = s1 +:+ (s2 +:+ s3).
Proof.
  induction s1 as [|c s1 IH]; [reflexivity|].
  change (String c ((s1 +:+ s2) +:+ s3) = String c (s1 +:+ (s2 +:+ s3))).
  by rewrite IH.
Qed.

Module QStringFacts.
Import QString.

Lemma escape_at_plain c s :
  is_percent c = false -> escape_at (String c s) = None.
Proof. intros Hc. unfold escape_at. by rewrite Hc. Qed.

(** A character that is not ['%'] is passed over. *)
Lemma arg_cons_plain c s a :
  is_percent c = false -> arg (String c s) a = String c (arg s a).
Proof.
  intros Hc. unfold arg.
  change (findArgEscapes 0 (String c s)) with
    (match escape_at (String c s) with
     | Some (n, len) =>
         Escape n (substring 0 len (String c s)) :: findArgEscapes (Nat.pred len) s
     | None => Text c :: findArgEscapes 0 s
     end).
  rewrite escape_at_plain by assumption. simpl.
  destruct (min_escape (findArgEscapes 0 s)); reflexivity.
Qed.

(** So is a prefix without ['%']: what was substituted earlier is never
    scanned as a marker. *)
Lemma arg_plain_app p s a :
  plain p = true -> arg (p +:+ s) a = p +:+ arg s a.
Proof.
  induction p as [|c p IH]; simpl; intros Hp; [reflexivity|].
  apply andb_prop in Hp as [Hc Hp]. apply negb_true_iff in Hc.
  change (String c p +:+ s) with (String c (p +:+ s)).
  rewrite arg_cons_plain by assumption. rewrite IH by assumption. reflexivity.
Qed.

Lemma plain_uint d : plain (NilEmpty.string_of_uint d) = true.
Proof. induction d; simpl; auto. Qed.

Lemma plain_uint0 d : plain (NilZero.string_of_uint d) = true.
Proof. destruct d; first [reflexivity | apply (plain_uint (_ d))]. Qed.

(** A decimal number has no ['%']. *)
Lemma plain_number n : plain (number n) = true.
Proof.
  unfold number, NilZero.string_of_int.
  destruct (Z.to_int n); [apply plain_uint0|].
  change (negb (is_percent "-") && plain (NilZero.string_of_uint d) = true).
  apply plain_uint0.
Qed.

Ltac plain_side := first [assumption | reflexivity | apply plain_number].

(** The five substitutions of the ISUP comment. *)
Lemma isup_format A B C D E :
  plain A = true -> plain B = true -> plain C = true -> plain D = true ->
  arg (arg (arg (arg (arg "%1-%2 %3 %4-%5" A) B) C) D) E
  = A +:+ "-" +:+ B +:+ " " +:+ C +:+ " " +:+ D +:+ "-" +:+ E.
Proof.
  intros HA HB HC HD.
  change (arg "%1-%2 %3 %4-%5" A) with (A +:+ "-%2 %3 %4-%5").
  rewrite (arg_plain_app A) by plain_side.
  change (arg "-%2 %3 %4-%5" B) with ("-" +:+ B +:+ " %3 %4-%5").
  rewrite (arg_plain_app A), (arg_plain_app "-"), (arg_plain_app B)
    by plain_side.
  change (arg " %3 %4-%5" C) with (" " +:+ C +:+ " %4-%5").
  rewrite (arg_plain_app A), (arg_plain_app "-"), (arg_plain_app B),
    (arg_plain_app " "), (arg_plain_app C) by plain_side.
  change (arg " %4-%5" D) with (" " +:+ D +:+ "-%5").
  rewrite (arg_plain_app A), (arg_plain_app "-"), (arg_plain_app B),
    (arg_plain_app " "), (arg_plain_app C), (arg_plain_app " "),
    (arg_plain_app D) by plain_side.
  change (arg "-%5" E) with ("-" +:+ E +:+ EmptyString).
  by rewrite append_empty_r.
Qed.

(** The two substitutions of a filter clause. *)
Lemma clause_format pre n :
  plain pre = true ->
  arg_int (arg "%1frame.number == %2" pre) n
  = pre +:+ "frame.number == " +:+ number n.
Proof.
  intros Hpre. unfold arg_int.
  change (arg "%1frame.number == %2" pre) with (pre +:+ "frame.number == %2").
  rewrite (arg_plain_app pre) by plain_side.
  change (arg "frame.number == %2" (number n))
    with ("frame.number == " +:+ number n +:+ EmptyString).
  by rewrite append_empty_r.
Qed.

End QStringFacts.

(** ** The comment column *)

Section Comments.
Context {E : External}.

Lemma drawData_comment_text it c :
  user_data it = Some c ->
  text (drawData it) comments_col_ = call_comments c.
Proof.
  intros Hc. unfold drawData. rewrite Hc. unfold text, setText. simpl.
  by rewrite lookup_insert_eq.
Qed.

Lemma isup_call_comments c i :
  isup_info_of c = Some i ->
  call_comments c
  = QString.number (ni i) +:+ "-" +:+ QString.number (opc i) +:+ " "
    +:+ UTF8_RIGHTWARDS_ARROW +:+ " "
    +:+ QString.number (ni i) +:+ "-" +:+ QString.number (dpc i).
Proof.
  destruct c as [st fi ti sp p pn cc cn pi np t0 t1].
  unfold isup_info_of, call_comments. simpl.
  destruct p; simpl in *; try discriminate.
  intros [= ->]. unfold QString.arg_int.
  apply QStringFacts.isup_format;
    first [apply QStringFacts.plain_number | reflexivity].
Qed.

End Comments.

(** C3: the comment of an ISUP call is
    "<ni>-<opc> -> <ni>-<dpc>" with a rightwards arrow, made of the network
    indicator, the origin point code and the destination point code of its
    ISUP record, both as [drawData] computes it and as the text of the
    comment column afterwards; with ni=1, opc=2, dpc=3 it is "1-2 -> 1-3"
    (with the arrow). *)
Theorem isup_comment {E : External}
    (it : VoipCallsTreeWidgetItem) (c : voip_calls_info_t)
    (i : isup_calls_info_t) :
  user_data it = Some c ->
  isup_info_of c = Some i ->
  text (drawData it) comments_col_
  = QString.number (ni i) +:+ "-" +:+ QString.number (opc i) +:+ " "
    +:+ UTF8_RIGHTWARDS_ARROW +:+ " "
    +:+ QString.number (ni i) +:+ "-" +:+ QString.number (dpc i)
  /\ (ni i = 1 -> opc i = 2 -> dpc i = 3 ->
      text (drawData it) comments_col_ = "1-2 → 1-3").
Proof.
  intros Hit Hi.
  rewrite (drawData_comment_text it c Hit), (isup_call_comments c i Hi).
  split; [reflexivity|].
  intros -> -> ->. reflexivity.
Qed.

Lemma isup_comment_witness :
  text (drawData (E := spec_External) row_isup) comments_col_ = "1-2 → 1-3".
Proof.
  apply (proj2 (isup_comment (E := spec_External) row_isup sample_isup_call
                  sample_isup_info eq_refl eq_refl)); reflexivity.
Defined.

Lemma is_true_g_spec (g : gboolean) : is_true_g g = true <-> g <> 0.
Proof.
  unfold is_true_g. rewrite negb_true_iff, Z.eqb_neq. reflexivity.
Qed.

Lemma h323_call_comments (c : voip_calls_info_t) (h : h323_calls_info_t) :
  h323_info_of c = Some h ->
  call_comments c
  = "Tunneling: " +:+ on_off (is_true_g (is_h245Tunneling h))
    +:+ "  Fast Start: "
    +:+ on_off (if decide (call_state c = VOIP_CALL_SETUP)
                then is_true_g (is_faststart_Setup h)
                else is_true_g (is_faststart_Setup h)
                     && is_true_g (is_faststart_Proc h)).
Proof.
  destruct c as [st fi ti sp p pn cc cn pi np t0 t1].
  unfold h323_info_of, call_comments. simpl.
  destruct p; simpl in *; try discriminate.
  intros [= ->].
  destruct (decide (st = VOIP_CALL_SETUP));
    destruct (is_true_g (is_h245Tunneling h));
    destruct (is_true_g (is_faststart_Setup h));
    destruct (is_true_g (is_faststart_Proc h)); reflexivity.
Qed.

(** C4: the comment of an H.323 call is
    "Tunneling: <On|Off>  Fast Start: <On|Off>"; Tunneling is On exactly when
    the h245-tunneling flag is set; Fast Start is On exactly when the call is
    in setup and the Setup fast-start flag is set, or the call is past setup
    and both the Setup and the Proc fast-start flags are set; in setup with
    the Setup flag set and tunneling clear it is
    "Tunneling: Off  Fast Start: On". *)
Theorem h323_comment {E : External}
    (it : VoipCallsTreeWidgetItem) (c : voip_calls_info_t)
    (h : h323_calls_info_t) :
  user_data it = Some c ->
  h323_info_of c = Some h ->
  exists tunneling fast_start : bool,
    text (drawData it) comments_col_
    = "Tunneling: " +:+ on_off tunneling
      +:+ "  Fast Start: " +:+ on_off fast_start
    /\ (tunneling = true <-> is_h245Tunneling h <> 0)
    /\ (fast_start = true <->
        (call_state c = VOIP_CALL_SETUP /\ is_faststart_Setup h <> 0)
        \/ (call_state c <> VOIP_CALL_SETUP
            /\ is_faststart_Setup h <> 0 /\ is_faststart_Proc h <> 0))
    /\ (call_state c = VOIP_CALL_SETUP -> is_faststart_Setup h <> 0 ->
        is_h245Tunneling h = 0 ->
        text (drawData it) comments_col_ = "Tunneling: Off  Fast Start: On").
Proof.
  intros Hit Hh.
  rewrite (drawData_comment_text it c Hit), (h323_call_comments c h Hh).
  eexists _, _. split; [reflexivity|].
  split; [apply is_true_g_spec|].
  split.
  - destruct (decide (call_state c = VOIP_CALL_SETUP)) as [Hs|Hs].
    + rewrite is_true_g_spec. tauto.
    + rewrite andb_true_iff, !is_true_g_spec. tauto.
  - intros Hs Hsetup Htun.
    destruct (decide (call_state c = VOIP_CALL_SETUP)); [|contradiction].
    apply is_true_g_spec in Hsetup. rewrite Hsetup, Htun. reflexivity.
Qed.

Lemma h323_comment_witness :
  text (drawData (E := spec_External) row_h323) comments_col_
  = "Tunneling: Off  Fast Start: On".
Proof.
  destruct (h323_comment (E := spec_External) row_h323 sample_h323_call
              sample_h323_info eq_refl eq_refl)
    as (tunneling & fast_start & _ & _ & _ & Hsetup).
  apply Hsetup; [reflexivity | discriminate | reflexivity].
Defined.

(** ** The filter of the selected calls *)

Lemma concat_or_cons (c : string) (l : list string) :
  String.concat " or " (c :: l) = c +:+ or_joined_tail l.
Proof.
  revert c. induction l as [|d l IH]; intros c.
  - simpl. by rewrite append_empty_r.
  - change (String.concat " or " (c :: d :: l))
      with (c +:+ " or " +:+ String.concat " or " (d :: l)).
    by rewrite IH.
Qed.

Lemma leading_data_Some {A} (l : list A) : leading_data (Some <$> l) = l.
Proof. induction l as [|x l IH]; csimpl; [done | by rewrite IH]. Qed.

Lemma leading_data_null {A} (l : list A) (rest : GList A) :
  leading_data ((Some <$> l) ++ None :: rest) = l.
Proof. induction l as [|x l IH]; csimpl; [done | by rewrite IH]. Qed.

Lemma walk_joined (sel : gset Z) (nodes : GList seq_analysis_item_t) acc :
  prepareFilter_walk sel nodes acc " or "
  = acc +:+ or_joined_tail
              (filter_clause <$> matching_events sel (leading_data nodes)).
Proof.
  revert acc. induction nodes as [|[e|] nodes IH]; intros acc; simpl;
    try by rewrite append_empty_r.
  unfold matching_events. rewrite filter_cons.
  destruct (decide (conv_num e ∈ sel)).
  - rewrite IH, QStringFacts.clause_format by reflexivity.
    rewrite append_assoc. reflexivity.
  - apply IH.
Qed.

(** What the walk of [prepareFilter] builds from the empty string. *)
Lemma walk_from_empty (sel : gset Z) (nodes : GList seq_analysis_item_t) :
  prepareFilter_walk sel nodes EmptyString EmptyString
  = String.concat " or "
      (filter_clause <$> matching_events sel (leading_data nodes)).
Proof.
  induction nodes as [|[e|] nodes IH]; simpl; try reflexivity.
  unfold matching_events. rewrite filter_cons.
  destruct (decide (conv_num e ∈ sel)); [|apply IH].
  rewrite walk_joined, QStringFacts.clause_format by reflexivity.
  rewrite fmap_cons, concat_or_cons. reflexivity.
Qed.

Lemma collect_selected_calls_ok (sel : list VoipCallsTreeWidgetItem) acc :
  Forall has_call sel ->
  collect_selected_calls sel acc
  = Returned (list_to_set (omap (fun it => call_num <$> user_data it) sel) ∪ acc).
Proof.
  intros Hsel. revert acc.
  induction Hsel as [|ti sel [c Hc] _ IH]; intros acc; simpl.
  - by rewrite (left_id_L ∅ (∪)).
  - rewrite Hc. simpl. rewrite IH. f_equal.
    rewrite (assoc_L (∪)). f_equal. apply (comm_L (∪)).
Qed.

Lemma prepareFilter_selected (d : VoipCallsDialog) (ga : seq_analysis_info_t) :
  graph_analysis (tapinfo_ d) = Some ga ->
  selectedItems (callTreeWidget d) <> [] ->
  Forall has_call (selectedItems (callTreeWidget d)) ->
  prepareFilter d
  = Returned (Some (String.concat " or "
      (filter_clause <$>
         matching_events (selected_call_ids (callTreeWidget d))
           (leading_data (items ga))))).
Proof.
  intros Hga Hne Hsel. unfold prepareFilter. rewrite Hga.
  pose proof (collect_selected_calls_ok _ ∅ Hsel) as Hc.
  destruct (selectedItems (callTreeWidget d)) as [|ti sel] eqn:Hsi; [done|].
  rewrite Hc. unfold g_queue_peek_nth_link. rewrite drop_0, walk_from_empty.
  unfold selected_call_ids. rewrite Hsi.
  by rewrite (right_id_L ∅ (∪)).
Qed.

Lemma prepareFilter_nothing_selected (d : VoipCallsDialog) :
  selectedItems (callTreeWidget d) = [] -> prepareFilter d = Returned None.
Proof. intros Hsi. unfold prepareFilter. by rewrite Hsi. Qed.

Lemma clauses_of_frames (l : list seq_analysis_item_t) (frames : list Z) :
  (fun e => num (fd e)) <$> l = frames ->
  filter_clause <$> l
  = (fun n => "frame.number == " +:+ QString.number n) <$> frames.
Proof. intros <-. by rewrite <- list_fmap_compose. Qed.

Lemma matching_singleton (id : Z) (evs : list seq_analysis_item_t) :
  matching_events {[id]} evs = filter (fun e => conv_num e = id) evs.
Proof.
  unfold matching_events. apply list_filter_iff. intros e.
  apply elem_of_singleton.
Qed.

Lemma matching_empty (evs : list seq_analysis_item_t) :
  matching_events ∅ evs = [].
Proof.
  unfold matching_events. induction evs as [|e evs IH]; [reflexivity|].
  rewrite filter_cons. destruct (decide (conv_num e ∈ (∅ : gset Z))) as [Hin|_].
  - by apply not_elem_of_empty in Hin.
  - exact IH.
Qed.

Lemma selected_call_ids_perm (t t' : QTreeWidget) :
  selectedItems t' ≡ₚ selectedItems t ->
  selected_call_ids t' = selected_call_ids t.
Proof.
  intros Hp. unfold selected_call_ids.
  apply list_to_set_perm_L. by rewrite Hp.
Qed.

(** C1: for every set of selected call numbers and every list of events,
    the walk of [prepareFilter] yields the clauses "frame.number == <frame>"
    of the events whose call number is in the set, in the order of the event
    list, joined by " or "; when the events of the one selected call carry
    the frames 3, 7, 9 in that order the filter is "frame.number == 3 or
    frame.number == 7 or frame.number == 9".  [prepareFilter] as a whole,
    with rows selected that all carry a call, emits that filter for the call
    numbers of the selected rows, and the same filter however the selected
    rows are ordered. *)
Theorem prepareFilter_index_order
    (sel : gset Z) (evs : list seq_analysis_item_t)
    (d : VoipCallsDialog) (ga : seq_analysis_info_t) :
  prepareFilter_walk sel (Some <$> evs) EmptyString EmptyString
  = String.concat " or " (filter_clause <$> matching_events sel evs)
  /\ (forall id : Z,
        (fun e => num (fd e)) <$> filter (fun e => conv_num e = id) evs
        = [3; 7; 9] ->
        prepareFilter_walk {[id]} (Some <$> evs) EmptyString EmptyString
        = "frame.number == 3 or frame.number == 7 or frame.number == 9")
  /\ (graph_analysis (tapinfo_ d) = Some ga ->
      items ga = Some <$> evs ->
      selectedItems (callTreeWidget d) <> [] ->
      Forall has_call (selectedItems (callTreeWidget d)) ->
      prepareFilter d
      = Returned (Some (String.concat " or "
          (filter_clause <$>
             matching_events (selected_call_ids (callTreeWidget d)) evs)))
      /\ (forall id : Z,
            selected_call_ids (callTreeWidget d) = {[id]} ->
            (fun e => num (fd e)) <$> filter (fun e => conv_num e = id) evs
            = [3; 7; 9] ->
            prepareFilter d
            = Returned (Some
                "frame.number == 3 or frame.number == 7 or frame.number == 9"))
      /\ (forall d' : VoipCallsDialog,
            tapinfo_ d' = tapinfo_ d ->
            selectedItems (callTreeWidget d')
              ≡ₚ selectedItems (callTreeWidget d) ->
            prepareFilter d' = prepareFilter d)).
Proof.
  split; [by rewrite walk_from_empty, leading_data_Some|].
  split.
  { intros id Hframes.
    rewrite walk_from_empty, leading_data_Some, matching_singleton.
    by rewrite (clauses_of_frames _ _ Hframes). }
  intros Hga Hitems Hne Hsel.
  pose proof (prepareFilter_selected d ga Hga Hne Hsel) as Hd.
  rewrite Hitems, leading_data_Some in Hd.
  split; [exact Hd|]. split.
  - intros id Hid Hframes. rewrite Hd, Hid, matching_singleton.
    by rewrite (clauses_of_frames _ _ Hframes).
  - intros d' Htap Hperm.
    assert (selectedItems (callTreeWidget d') <> []) as Hne'.
    { intros Hsi. rewrite Hsi in Hperm. by apply Permutation_nil in Hperm. }
    assert (Forall has_call (selectedItems (callTreeWidget d'))) as Hsel'.
    { by rewrite Hperm. }
    rewrite <- Htap in Hga.
    rewrite (prepareFilter_selected d' ga Hga Hne' Hsel'), Hd.
    rewrite Hitems, leading_data_Some.
    by rewrite (selected_call_ids_perm _ _ Hperm).
Qed.

Lemma prepareFilter_index_order_witness :
  prepareFilter dialog_one_selected
  = Returned (Some
      "frame.number == 3 or frame.number == 7 or frame.number == 9").
Proof.
  refine (proj1 (proj2 (proj2 (proj2 (prepareFilter_index_order
            {[1]} sample_events dialog_one_selected
            {| items := Some <$> sample_events |})) _ _ _ _)) 1 _ _).
  - reflexivity.
  - reflexivity.
  - discriminate.
  - repeat constructor; by eexists.
  - reflexivity.
  - reflexivity.
Defined.

(** C2 as stated does not hold: with no row selected and a graph that has
    events, [prepareFilter] returns before it builds anything and emits no
    filter, so its result is not the empty string. *)
Lemma prepareFilter_empty_selection_emits_nothing :
  selected_call_ids (callTreeWidget dialog_none_selected) = ∅
  /\ prepareFilter dialog_none_selected = Returned None
  /\ prepareFilter dialog_none_selected <> Returned (Some EmptyString).
Proof. split; [reflexivity|]. split; [reflexivity|discriminate]. Qed.

(** C2, amended: with no row selected, or without a graph, [prepareFilter]
    returns without emitting a filter (and without an error); the walk itself
    leaves the filter empty when the set of selected calls is empty; with
    rows selected and no event of theirs in the graph it emits the empty
    string; and whenever it emits, the filter is the clauses joined by " or ",
    with no join token before the first or after the last. *)
Theorem prepareFilter_empty_results (d : VoipCallsDialog) :
  (selectedItems (callTreeWidget d) = [] -> prepareFilter d = Returned None)
  /\ (graph_analysis (tapinfo_ d) = None -> prepareFilter d = Returned None)
  /\ (forall nodes : GList seq_analysis_item_t,
        prepareFilter_walk ∅ nodes EmptyString EmptyString = EmptyString)
  /\ (forall ga : seq_analysis_info_t,
        graph_analysis (tapinfo_ d) = Some ga ->
        selectedItems (callTreeWidget d) <> [] ->
        Forall has_call (selectedItems (callTreeWidget d)) ->
        prepareFilter d
        = Returned (Some (String.concat " or "
            (filter_clause <$>
               matching_events (selected_call_ids (callTreeWidget d))
                 (leading_data (items ga)))))
        /\ (matching_events (selected_call_ids (callTreeWidget d))
              (leading_data (items ga)) = [] ->
            prepareFilter d = Returned (Some EmptyString))).
Proof.
  split; [apply prepareFilter_nothing_selected|]. split.
  { intros Hga. unfold prepareFilter. rewrite Hga.
    by destruct (selectedItems (callTreeWidget d)). }
  split.
  { intros nodes. by rewrite walk_from_empty, matching_empty. }
  intros ga Hga Hne Hsel.
  pose proof (prepareFilter_selected d ga Hga Hne Hsel) as Hd.
  split; [exact Hd|]. intros Hnone. by rewrite Hd, Hnone.
Qed.

Lemma prepareFilter_empty_results_witness :
  prepareFilter dialog_none_selected = Returned None
  /\ prepareFilter dialog_unmatched_selected = Returned (Some EmptyString).
Proof.
  split.
  - apply (proj1 (prepareFilter_empty_results dialog_none_selected)).
    reflexivity.
  - refine (proj2 (proj2 (proj2 (proj2
             (prepareFilter_empty_results dialog_unmatched_selected)))
             {| items := Some <$> sample_events |} _ _ _) _).
    + reflexivity.
    + discriminate.
    + repeat constructor; by eexists.
    + reflexivity.
Defined.

(** ** The comparator *)

Section Comparator.
Context {E : External}.

Lemma operator_lt_start (this other : VoipCallsTreeWidgetItem) a b :
  user_data this = Some a -> user_data other = Some b ->
  operator_lt start_time_col_ this other
  = (nstime_cmp (start_rel_ts a) (start_rel_ts b) <? 0).
Proof. intros Ha Hb. unfold operator_lt. by rewrite Ha, Hb. Qed.

Lemma operator_lt_stop (this other : VoipCallsTreeWidgetItem) a b :
  user_data this = Some a -> user_data other = Some b ->
  operator_lt stop_time_col_ this other
  = (nstime_cmp (stop_rel_ts a) (stop_rel_ts b) <? 0).
Proof. intros Ha Hb. unfold operator_lt. by rewrite Ha, Hb. Qed.

Hypothesis orders : ExternalOrders E.

Lemma operator_lt_irrefl (col : Z) (a : VoipCallsTreeWidgetItem) :
  operator_lt col a a = false.
Proof.
  destruct orders as [[Hn _] [Ha _] [Hv _]].
  unfold operator_lt, QTreeWidgetItem_operator_lt.
  destruct (user_data a) as [c|]; [|reflexivity].
  repeat case_match; try (apply not_true_is_false, Hv); apply Z.ltb_ge;
    first [apply Z.le_refl | apply Z.nlt_ge; first [apply Hn | apply Ha]].
Qed.

Lemma operator_lt_trans (col : Z) (a b c : VoipCallsTreeWidgetItem) :
  operator_lt col a b = true -> operator_lt col b c = true ->
  operator_lt col a c = true.
Proof.
  destruct orders as [[_ Hn] [_ Ha] [_ Hv]].
  unfold operator_lt, QTreeWidgetItem_operator_lt.
  destruct (user_data a) as [ca|]; [|discriminate].
  destruct (user_data b) as [cb|]; [|discriminate].
  destruct (user_data c) as [cc|]; [|discriminate].
  repeat case_match; rewrite ?Z.ltb_lt; eauto; lia.
Qed.

Lemma operator_lt_asym (col : Z) (a b : VoipCallsTreeWidgetItem) :
  operator_lt col a b = true -> operator_lt col b a = false.
Proof.
  intros Hab. apply not_true_is_false. intros Hba.
  pose proof (operator_lt_trans col a b a Hab Hba) as Haa.
  by rewrite operator_lt_irrefl in Haa.
Qed.

Lemma itemCompare_asym (col : Z) (order : SortOrder)
    (a b : VoipCallsTreeWidgetItem) :
  itemCompare col order a b = true -> itemCompare col order b a = false.
Proof. destruct order; apply operator_lt_asym. Qed.

End Comparator.

(** The helpers of the design document are strict orders. *)

Lemma Z_of_comparison_neg (c : comparison) : Z_of_comparison c < 0 <-> c = Lt.
Proof. destruct c; simpl; split; (lia || discriminate || reflexivity). Qed.

Lemma bytes_compare_refl (l : list Z) : bytes_compare l l = Eq.
Proof.
  induction l as [|x l IH]; simpl; [reflexivity|].
  by rewrite Z.compare_refl.
Qed.

Lemma bytes_compare_trans (l1 l2 l3 : list Z) :
  bytes_compare l1 l2 = Lt -> bytes_compare l2 l3 = Lt ->
  bytes_compare l1 l3 = Lt.
Proof.
  revert l2 l3.
  induction l1 as [|x l1 IH]; intros [|y l2] [|z l3]; simpl; try done.
  destruct (Z.compare_spec x y) as [->|Hxy|Hxy]; [| |discriminate].
  - destruct (Z.compare_spec y z) as [->|Hyz|Hyz]; [apply IH|done|discriminate].
  - intros _.
    destruct (Z.compare_spec y z) as [->|Hyz|Hyz]; [| |discriminate];
      intros _; assert ((x ?= z) = Lt) as -> by (apply Z.compare_lt_iff; lia);
      reflexivity.
Qed.

Lemma string_compare_refl (s : string) : String.compare s s = Eq.
Proof.
  destruct (String.compare s s) eqn:Hc; [reflexivity| |];
    pose proof (String.compare_antisym s s) as Ha;
    rewrite Hc in Ha; discriminate.
Qed.

Lemma string_compare_trans (s1 s2 s3 : string) :
  String.compare s1 s2 = Lt -> String.compare s2 s3 = Lt ->
  String.compare s1 s3 = Lt.
Proof.
  intros H12 H23.
  assert (String.le s1 s3) as Hle.
  { transitivity s2; unfold String.le, String.leb.
    - by rewrite H12.
    - by rewrite H23. }
  unfold String.le, String.leb in Hle.
  destruct (String.compare s1 s3) eqn:H13; [|reflexivity|done].
  apply String.compare_eq_iff in H13 as ->.
  pose proof (String.compare_antisym s3 s2) as Ha.
  rewrite H12, H23 in Ha. discriminate.
Qed.

Lemma spec_orders : ExternalOrders spec_External.
Proof.
  split; simpl; split.
  - intros t. unfold spec_nstime_cmp. by rewrite Z.compare_refl.
  - intros a b c. unfold spec_nstime_cmp.
    rewrite !Z_of_comparison_neg, !Z.compare_lt_iff. lia.
  - intros a. unfold spec_cmp_address. by rewrite bytes_compare_refl.
  - intros a b c. unfold spec_cmp_address. rewrite !Z_of_comparison_neg.
    apply bytes_compare_trans.
  - intros s. unfold spec_variantLessThan. by rewrite string_compare_refl.
  - intros s1 s2 s3. unfold spec_variantLessThan.
    destruct (String.compare s1 s2) eqn:H12; try discriminate.
    destruct (String.compare s2 s3) eqn:H23; try discriminate.
    by rewrite (string_compare_trans s1 s2 s3).
Qed.

(** C5 as stated does not hold: call 1 is stored before call 2 and both
    start at the same time, yet under the start-time key neither row is less
    than the other, so the comparator does not put call 1 first. *)
Lemma equal_start_not_ordered_by_store :
  callsinfos (tapinfo_ dialog_one_selected) = [Some call_1; Some call_2]
  /\ start_rel_ts call_1 = start_rel_ts call_2
  /\ operator_lt (E := spec_External) start_time_col_ row_1 row_2 = false
  /\ operator_lt (E := spec_External) start_time_col_ row_2 row_1 = false.
Proof. repeat split. Qed.

(** C5, amended: under the start-time (stop-time) key a row is less than
    another exactly when [nstime_cmp] of their start (stop) times is
    negative; the store order plays no part, so two rows with equal times
    compare the same in both directions, and neither is less than the other
    as soon as [nstime_cmp] does not put a time before itself. *)
Theorem time_keys_compare_timestamps {E : External}
    (this other : VoipCallsTreeWidgetItem) (a b : voip_calls_info_t) :
  user_data this = Some a ->
  user_data other = Some b ->
  operator_lt start_time_col_ this other
  = (nstime_cmp (start_rel_ts a) (start_rel_ts b) <? 0)
  /\ operator_lt stop_time_col_ this other
     = (nstime_cmp (stop_rel_ts a) (stop_rel_ts b) <? 0)
  /\ (start_rel_ts a = start_rel_ts b ->
      operator_lt start_time_col_ this other
      = operator_lt start_time_col_ other this
      /\ (~ nstime_cmp (start_rel_ts a) (start_rel_ts a) < 0 ->
          operator_lt start_time_col_ this other = false
          /\ operator_lt start_time_col_ other this = false))
  /\ (stop_rel_ts a = stop_rel_ts b ->
      operator_lt stop_time_col_ this other
      = operator_lt stop_time_col_ other this
      /\ (~ nstime_cmp (stop_rel_ts a) (stop_rel_ts a) < 0 ->
          operator_lt stop_time_col_ this other = false
          /\ operator_lt stop_time_col_ other this = false)).
Proof.
  intros Ha Hb.
  rewrite (operator_lt_start this other a b Ha Hb),
    (operator_lt_start other this b a Hb Ha),
    (operator_lt_stop this other a b Ha Hb),
    (operator_lt_stop other this b a Hb Ha).
  split; [reflexivity|]. split; [reflexivity|].
  split; intros ->; (split; [reflexivity|]); intros Hn;
    rewrite Z.ltb_ge; lia.
Qed.

Lemma time_keys_compare_timestamps_witness :
  operator_lt (E := spec_External) start_time_col_ row_1 row_2 = false
  /\ operator_lt (E := spec_External) start_time_col_ row_2 row_1 = false.
Proof.
  refine (proj2 (proj1 (proj2 (proj2
            (time_keys_compare_timestamps (E := spec_External)
               row_1 row_2 call_1 call_2 _ _))) _) _).
  - reflexivity.
  - reflexivity.
  - reflexivity.
  - simpl. unfold spec_nstime_cmp. simpl. lia.
Defined.

(** C6: with the helpers as the design document describes them, under every
    sort column the comparator is irreflexive (a row is never less than
    itself, and comparing a row with itself returns false) and transitive. *)
Theorem operator_lt_irreflexive_transitive
    (col : Z) (a b c : VoipCallsTreeWidgetItem) :
  operator_lt (E := spec_External) col a a = false
  /\ (operator_lt (E := spec_External) col a b = true ->
      operator_lt (E := spec_External) col b c = true ->
      operator_lt (E := spec_External) col a c = true).
Proof.
  split.
  - apply operator_lt_irrefl, spec_orders.
  - apply operator_lt_trans, spec_orders.
Qed.

Lemma operator_lt_irreflexive_transitive_witness :
  operator_lt (E := spec_External) packets_col_ row_5 row_2 = true.
Proof.
  apply (proj2 (operator_lt_irreflexive_transitive packets_col_
                  row_5 row_1 row_2)); reflexivity.
Defined.

(** ** Refreshing the call table *)

Section UpdateCalls.
Context {E : External}.

Lemma set_rows_set_rows tree its1 ops1 its2 ops2 :
  set_rows (set_rows tree its1 ops1) its2 ops2
  = set_rows tree its2 (ops1 ++ ops2).
Proof. unfold set_rows. simpl. by rewrite (assoc_L (++)). Qed.

Lemma set_rows_id tree : set_rows tree (topLevelItems tree) [] = tree.
Proof. destruct tree. unfold set_rows. simpl. by rewrite (right_id_L [] (++)). Qed.

Lemma with_items_off tree its op :
  sortingEnabled tree = false ->
  with_items tree (ensureSorted tree its) op = set_rows tree its [(op, false)].
Proof. intros Hoff. unfold with_items, ensureSorted, set_rows. by rewrite Hoff. Qed.

(** With sorting off the first loop adds one last row for each call up to
    the first link without data. *)
Lemma add_missing_items_off (cur_call : GList voip_calls_info_t) tree :
  sortingEnabled tree = false ->
  add_missing_items cur_call tree
  = set_rows tree (topLevelItems tree ++ new_rows cur_call)
      (replicate (length (leading_data cur_call)) (OpInsertItem, false)).
Proof.
  revert tree. unfold new_rows.
  induction cur_call as [|[c|] next IH]; intros tree Hoff; simpl;
    try by rewrite (right_id_L [] (++)), set_rows_id.
  unfold addTopLevelItem. rewrite with_items_off by assumption.
  rewrite IH by assumption. rewrite set_rows_set_rows. simpl.
  by rewrite <- (assoc_L (++)).
Qed.

(** With sorting off the second loop redraws every row from [row] on, in
    place. *)
Lemma fill_in_tree_off (n row : nat) tree :
  sortingEnabled tree = false ->
  (row + n = length (topLevelItems tree))%nat ->
  fill_in_tree n row tree
  = set_rows tree
      (take row (topLevelItems tree) ++ (drawData <$> drop row (topLevelItems tree)))
      ((fun r => (OpItemChanged r, false)) <$> seq row n).
Proof.
  revert row tree. induction n as [|n IH]; intros row tree Hoff Hlen; simpl.
  - rewrite drop_ge, take_ge by lia. simpl.
    by rewrite (right_id_L [] (++)), set_rows_id.
  - unfold drawData_row.
    destruct (lookup_lt_is_Some_2 (topLevelItems tree) row) as [vcti Hrow];
      [lia|].
    rewrite Hrow, with_items_off by assumption.
    rewrite IH; [|assumption|simpl; rewrite length_insert; lia].
    rewrite set_rows_set_rows. simpl. f_equal.
    rewrite (take_S_r _ _ (drawData vcti))
      by (apply list_lookup_insert_eq; lia).
    rewrite take_insert_ge, drop_insert_lt by lia.
    rewrite (drop_S _ _ _ Hrow). simpl.
    by rewrite <- (assoc_L (++)).
Qed.

Lemma resize_columns_history (n i : nat) tree :
  resize_columns n i tree
  = set_rows tree (topLevelItems tree)
      ((fun c => (OpResizeColumn c, sortingEnabled tree)) <$> seq i n).
Proof.
  revert i tree. induction n as [|n IH]; intros i tree; simpl.
  - by rewrite set_rows_id.
  - rewrite IH. unfold resizeColumnToContents, with_items, set_rows. simpl.
    by rewrite <- (assoc_L (++)).
Qed.

(** One run of [updateCalls] on the tree, in closed form. *)
Lemma updateCalls_tree_closed (calls : GList voip_calls_info_t) tree :
  let cur_call := g_queue_peek_nth_link calls (topLevelItemCount tree) in
  updateCalls_tree calls tree
  = {| topLevelItems :=
         sortItems (sortColumn tree) (sortOrder tree)
           (drawData <$> (topLevelItems tree ++ new_rows cur_call));
       sortingEnabled := true;
       sortColumn := sortColumn tree;
       sortOrder := sortOrder tree;
       columnCount := columnCount tree;
       history :=
         history tree
         ++ refresh_history (sortingEnabled tree)
              (length (leading_data cur_call))
              (topLevelItemCount tree + length (leading_data cur_call))
              (columnCount tree) |}.
Proof.
  intros cur_call. unfold updateCalls_tree. fold cur_call.
  set (t0 := setSortingEnabled false tree).
  assert (sortingEnabled t0 = false) as Hoff by reflexivity.
  rewrite (add_missing_items_off cur_call t0 Hoff).
  set (t1 := set_rows t0 _ _).
  assert (topLevelItemCount t1
          = (topLevelItemCount tree + length (leading_data cur_call))%nat)
    as Hcount.
  { unfold topLevelItemCount, t1, new_rows. simpl.
    by rewrite length_app, length_fmap. }
  rewrite (fill_in_tree_off _ 0 t1); [|reflexivity|by rewrite Hcount].
  rewrite Hcount. subst t1. rewrite set_rows_set_rows, resize_columns_history.
  rewrite set_rows_set_rows. unfold setSortingEnabled, refresh_history.
  simpl. rewrite drop_0. f_equal.
  by rewrite <- !app_assoc.
Qed.

End UpdateCalls.

(** ** Stable sorting *)

Section StableSortFacts.
Context {A : Type} (lt : A -> A -> bool).

Lemma stable_insert_perm (x : A) (l : list A) : stable_insert lt x l ≡ₚ x :: l.
Proof.
  induction l as [|y l IH]; simpl; [reflexivity|].
  destruct (lt y x); [|reflexivity].
  rewrite IH. apply Permutation_swap.
Qed.

Lemma stable_sort_perm (l : list A) : stable_sort lt l ≡ₚ l.
Proof.
  induction l as [|x l IH]; simpl; [reflexivity|].
  by rewrite stable_insert_perm, IH.
Qed.

Lemma stable_sort_length (l : list A) : length (stable_sort lt l) = length l.
Proof. apply Permutation_length, stable_sort_perm. Qed.

(** A list in which no element is less than its predecessor is left as it
    is. *)
Lemma stable_sort_fixed (l : list A) :
  locally_sorted lt l -> stable_sort lt l = l.
Proof.
  induction l as [|x l IH]; [reflexivity|].
  intros Hs. change (stable_insert lt x (stable_sort lt l) = x :: l).
  destruct l as [|y l]; [reflexivity|].
  destruct Hs as [Hyx Hs]. rewrite (IH Hs). simpl. by rewrite Hyx.
Qed.

Hypothesis lt_asym : forall a b, lt a b = true -> lt b a = false.

Lemma locally_sorted_tail (y : A) (l : list A) :
  locally_sorted lt (y :: l) -> locally_sorted lt l.
Proof. destruct l; [intros _; exact I | intros [_ Hs]; exact Hs]. Qed.

Lemma stable_insert_sorted (x : A) (l : list A) :
  locally_sorted lt l -> locally_sorted lt (stable_insert lt x l).
Proof.
  induction l as [|y l IH]; intros Hs; [exact I|].
  simpl. destruct (lt y x) eqn:Hyx.
  - specialize (IH (locally_sorted_tail y l Hs)).
    destruct l as [|z l].
    + simpl. split; [by apply lt_asym | exact I].
    + destruct Hs as [Hzy Hs]. simpl in IH |- *. destruct (lt z x).
      * split; [exact Hzy | exact IH].
      * split; [by apply lt_asym | exact IH].
  - split; [exact Hyx | exact Hs].
Qed.

Lemma stable_sort_sorted (l : list A) : locally_sorted lt (stable_sort lt l).
Proof.
  induction l as [|x l IH]; [exact I|].
  apply stable_insert_sorted, IH.
Qed.

(** Sorting what is sorted changes nothing. *)
Lemma stable_sort_idempotent (l : list A) :
  stable_sort lt (stable_sort lt l) = stable_sort lt l.
Proof. apply stable_sort_fixed, stable_sort_sorted. Qed.

End StableSortFacts.

Section Refresh.
Context {E : External}.

Lemma set_texts_spec (kvs : list (Z * QString.t)) (it : VoipCallsTreeWidgetItem) :
  set_texts kvs it
  = {| user_data := user_data it;
       texts := list_to_map kvs ∪ texts it;
       isSelected := isSelected it |}.
Proof.
  induction kvs as [|[k v] kvs IH].
  - destruct it. unfold set_texts. simpl. by rewrite (left_id_L ∅ (∪)).
  - change (set_texts ((k, v) :: kvs) it) with (setText k v (set_texts kvs it)).
    rewrite IH. unfold setText. simpl. by rewrite insert_union_l.
Qed.

Lemma drawData_set_texts (it : VoipCallsTreeWidgetItem) c :
  user_data it = Some c -> drawData it = set_texts (row_texts c) it.
Proof. intros Hc. unfold drawData. rewrite Hc. reflexivity. Qed.

(** Drawing a row twice from the same call is drawing it once. *)
Lemma drawData_idempotent (it : VoipCallsTreeWidgetItem) :
  drawData (drawData it) = drawData it.
Proof.
  destruct (user_data it) as [c|] eqn:Hc.
  - rewrite (drawData_set_texts it c Hc).
    rewrite (drawData_set_texts (set_texts (row_texts c) it) c)
      by (by rewrite set_texts_spec).
    rewrite !set_texts_spec. cbn [user_data texts isSelected]. f_equal.
    by rewrite (assoc_L (∪)), (idemp_L (∪)).
  - unfold drawData. by rewrite !Hc.
Qed.

Lemma leading_data_after {A} (l : GList A) :
  leading_data (drop (length (leading_data l)) l) = [].
Proof. induction l as [|[x|] l IH]; simpl; auto. Qed.

Lemma nothing_left_after_refresh {A} (calls : GList A) (n : nat) :
  leading_data
    (g_queue_peek_nth_link calls
       (n + length (leading_data (g_queue_peek_nth_link calls n))))
  = [].
Proof.
  unfold g_queue_peek_nth_link. rewrite <- drop_drop.
  apply leading_data_after.
Qed.

Lemma updateCalls_tree_count (calls : GList voip_calls_info_t) tree :
  topLevelItemCount (updateCalls_tree calls tree)
  = (topLevelItemCount tree
     + length (leading_data
                 (g_queue_peek_nth_link calls (topLevelItemCount tree))))%nat.
Proof.
  rewrite updateCalls_tree_closed. unfold topLevelItemCount, sortItems. simpl.
  rewrite stable_sort_length, length_fmap, length_app.
  unfold new_rows. by rewrite length_fmap.
Qed.

Lemma fmap_fixed {A} (f : A -> A) (l : list A) :
  Forall (fun x => f x = x) l -> f <$> l = l.
Proof. induction 1 as [|x l Hx _ IH]; csimpl; [done | by rewrite Hx, IH]. Qed.

Lemma rows_drawn_after_refresh (calls : GList voip_calls_info_t) tree :
  Forall (fun it => drawData it = it)
    (topLevelItems (updateCalls_tree calls tree)).
Proof.
  rewrite updateCalls_tree_closed. simpl. unfold sortItems.
  rewrite stable_sort_perm. apply Forall_fmap, Forall_forall.
  intros it _. apply drawData_idempotent.
Qed.

(** A second run on the same call list keeps the rows. *)
Lemma updateCalls_tree_twice (calls : GList voip_calls_info_t) tree :
  ExternalOrders E ->
  topLevelItems (updateCalls_tree calls (updateCalls_tree calls tree))
  = topLevelItems (updateCalls_tree calls tree).
Proof.
  intros orders.
  rewrite (updateCalls_tree_closed calls (updateCalls_tree calls tree)).
  cbv zeta. cbn [topLevelItems].
  assert (new_rows (g_queue_peek_nth_link calls
                      (topLevelItemCount (updateCalls_tree calls tree))) = [])
    as ->.
  { unfold new_rows.
    by rewrite updateCalls_tree_count, nothing_left_after_refresh. }
  rewrite app_nil_r.
  rewrite (fmap_fixed _ _ (rows_drawn_after_refresh calls tree)).
  rewrite (updateCalls_tree_closed calls tree).
  cbv zeta. cbn [topLevelItems sortColumn sortOrder].
  unfold sortItems. apply stable_sort_idempotent.
  intros a b. apply itemCompare_asym, orders.
Qed.

End Refresh.

(** C8: in every run of [updateCalls] the tree is first told to stop
    sorting, then the missing rows are added and every row is redrawn (and
    the columns resized), all while sorting is off, and only then sorting is
    turned on again: the run adds to the history of the tree the disabling,
    one insertion per new call, one redraw per row of the table as it is at
    the end, the resizes, and last the enabling, and every operation after
    the disabling found sorting off. *)
Theorem sorting_suspended_during_refresh {E : External} (d : VoipCallsDialog) :
  let tree := callTreeWidget d in
  let tree' := callTreeWidget (updateCalls d) in
  let k := length (leading_data
                     (g_queue_peek_nth_link (callsinfos (tapinfo_ d))
                        (topLevelItemCount tree))) in
  exists mid : list (TreeOp * bool),
    history tree'
    = history tree
      ++ (OpSetSortingEnabled false, sortingEnabled tree)
         :: mid ++ [(OpSetSortingEnabled true, false)]
    /\ mid
       = replicate k (OpInsertItem, false)
         ++ ((fun r => (OpItemChanged r, false))
               <$> seq 0 (topLevelItemCount tree'))
         ++ ((fun c => (OpResizeColumn c, false)) <$> seq 0 (columnCount tree))
    /\ Forall (fun e => e.2 = false) mid
    /\ topLevelItemCount tree' = (topLevelItemCount tree + k)%nat
    /\ sortingEnabled tree' = true.
Proof.
  intros tree tree' k.
  assert (tree' = updateCalls_tree (callsinfos (tapinfo_ d)) tree) as ->
    by reflexivity.
  pose proof (updateCalls_tree_count (callsinfos (tapinfo_ d)) tree) as Hn.
  fold k in Hn. rewrite Hn.
  rewrite updateCalls_tree_closed. simpl. fold k.
  eexists. split; [|split; [reflexivity|]].
  - unfold refresh_history. by rewrite <- !app_assoc.
  - split; [|done].
    rewrite !Forall_app, !Forall_fmap. repeat split.
    + by apply Forall_replicate.
    + by apply Forall_forall.
    + by apply Forall_forall.
Qed.

(** C9: a second run of [updateCalls] right after a first one (the call
    list untouched in between) leaves the table as the first run left it:
    the row count has reached the first link that is missing or without data,
    so no row is added, and the rows, their texts and their order are the
    same; the sort settings are the same too.  The helpers that compare times,
    addresses and texts are taken to be strict orders. *)
Theorem updateCalls_idempotent {E : External} (d : VoipCallsDialog) :
  ExternalOrders E ->
  let d1 := updateCalls d in
  let d2 := updateCalls d1 in
  topLevelItems (callTreeWidget d2) = topLevelItems (callTreeWidget d1)
  /\ leading_data
       (g_queue_peek_nth_link (callsinfos (tapinfo_ d1))
          (topLevelItemCount (callTreeWidget d1))) = []
  /\ topLevelItemCount (callTreeWidget d2)
     = topLevelItemCount (callTreeWidget d1)
  /\ sortingEnabled (callTreeWidget d2) = sortingEnabled (callTreeWidget d1)
  /\ sortColumn (callTreeWidget d2) = sortColumn (callTreeWidget d1)
  /\ sortOrder (callTreeWidget d2) = sortOrder (callTreeWidget d1)
  /\ (forall row column,
        (fun it => text it column) <$> (topLevelItems (callTreeWidget d2) !! row)
        = (fun it => text it column) <$> (topLevelItems (callTreeWidget d1) !! row)).
Proof.
  intros orders d1 d2.
  set (calls := callsinfos (tapinfo_ d)).
  set (tree := callTreeWidget d).
  assert (callTreeWidget d1 = updateCalls_tree calls tree) as H1
    by reflexivity.
  assert (callTreeWidget d2
          = updateCalls_tree calls (updateCalls_tree calls tree)) as H2
    by reflexivity.
  assert (callsinfos (tapinfo_ d1) = calls) as Hc by reflexivity.
  rewrite H1, H2, Hc.
  pose proof (updateCalls_tree_twice calls tree orders) as Hrows.
  split; [exact Hrows|]. split.
  { rewrite updateCalls_tree_count. apply nothing_left_after_refresh. }
  split.
  { unfold topLevelItemCount. by rewrite Hrows. }
  split; [by rewrite !updateCalls_tree_closed|].
  split; [by rewrite !updateCalls_tree_closed|].
  split; [by rewrite !updateCalls_tree_closed|].
  intros row column. by rewrite Hrows.
Qed.

Lemma updateCalls_idempotent_witness :
  topLevelItems
    (callTreeWidget (updateCalls (E := spec_External)
                       (updateCalls (E := spec_External) dialog_fresh)))
  = topLevelItems
      (callTreeWidget (updateCalls (E := spec_External) dialog_fresh)).
Proof.
  exact (proj1 (updateCalls_idempotent (E := spec_External) dialog_fresh
                  spec_orders)).
Defined.

(** Calls 2 and 1 start together and keep their order; call 5 lies behind
    the link without data and gets no row. *)
Example refresh_of_fresh_dialog :
  (fun it => text it packets_col_)
    <$> topLevelItems
          (callTreeWidget (updateCalls (E := spec_External) dialog_fresh))
  = ["6"; "4"].
Proof. vm_compute. reflexivity. Qed.

Example filter_stops_at_null_data :
  prepareFilter_walk {[1]}
    [Some (sample_event 1 3); Some (sample_event 2 4); None;
     Some (sample_event 1 7)]
    EmptyString EmptyString
  = "frame.number == 3".
Proof. reflexivity. Qed.

(** ** The flow sequence of the selected calls *)

Lemma showSequence_walk_events (sel : gset Z) (evs : list seq_analysis_item_t) :
  showSequence_walk sel (Some <$> evs) = Some <$> (mark_display sel <$> evs).
Proof. induction evs as [|e evs IH]; csimpl; [done | by rewrite IH]. Qed.

Lemma mark_display_spec (sel : gset Z) (e : seq_analysis_item_t) :
  (display (mark_display sel e) = TRUE <-> conv_num (mark_display sel e) ∈ sel)
  /\ (display (mark_display sel e) = FALSE <-> conv_num (mark_display sel e) ∉ sel).
Proof.
  unfold mark_display. simpl.
  destruct (bool_decide_reflect (conv_num e ∈ sel)); simpl; split; split;
    (done || discriminate).
Qed.

Lemma spec_sort_permutes : sort_permutes spec_External.
Proof. intros l. apply stable_sort_perm. Qed.

(** C7: with the file open, a graph whose links all carry an event and
    selected rows that all carry a call, [showSequence] hands over the graph
    with the same events (none removed, none added; the helper that sorts the
    graph only reorders them), each with its display flag TRUE exactly when
    its call number is among the selected ones and FALSE otherwise. *)
Theorem showSequence_sets_display {E : External}
    (d : VoipCallsDialog) (ga : seq_analysis_info_t)
    (evs : list seq_analysis_item_t) :
  file_closed_ d = false ->
  graph_analysis (tapinfo_ d) = Some ga ->
  items ga = Some <$> evs ->
  Forall has_call (selectedItems (callTreeWidget d)) ->
  sort_permutes E ->
  let sel := selected_call_ids (callTreeWidget d) in
  exists (sorted : list seq_analysis_item_t)
         (d' : VoipCallsDialog) (ga' : seq_analysis_info_t),
    showSequence d = Returned (d', Some ga')
    /\ graph_analysis (tapinfo_ d') = Some ga'
    /\ sorted ≡ₚ evs
    /\ items ga' = Some <$> (mark_display sel <$> sorted)
    /\ Forall (fun e => (display e = TRUE <-> conv_num e ∈ sel)
                        /\ (display e = FALSE <-> conv_num e ∉ sel))
         (leading_data (items ga'))
    /\ event_key <$> leading_data (items ga') ≡ₚ event_key <$> evs
    /\ length (items ga') = length (items ga).
Proof.
  intros Hopen Hga Hitems Hsel Hsort sel.
  destruct (Permutation_map_inv Some evs (Hsort (Some <$> evs)))
    as (sorted & Hsorted & Hperm).
  change (sequence_analysis_list_sort (Some <$> evs) = Some <$> sorted)
    in Hsorted.
  exists sorted. eexists _, _.
  split.
  { unfold showSequence. rewrite Hopen, Hga.
    rewrite (collect_selected_calls_ok _ ∅ Hsel), (right_id_L ∅ (∪)).
    fold (selected_call_ids (callTreeWidget d)). fold sel.
    unfold g_queue_peek_nth_link. rewrite drop_0, Hitems, Hsorted.
    rewrite showSequence_walk_events. reflexivity. }
  simpl. rewrite leading_data_Some.
  split; [reflexivity|]. split; [by symmetry|]. split; [reflexivity|].
  split; [|split].
  - apply Forall_fmap, Forall_forall. intros e _. apply mark_display_spec.
  - rewrite <- list_fmap_compose. rewrite <- Hperm. reflexivity.
  - rewrite Hitems, !length_fmap. by apply Permutation_length.
Qed.

Lemma showSequence_sets_display_witness :
  exists d' ga',
    showSequence (E := spec_External) dialog_one_selected
    = Returned (d', Some ga')
    /\ items ga'
       = Some <$> (mark_display {[1]} <$> sample_events).
Proof.
  destruct (showSequence_sets_display (E := spec_External)
              dialog_one_selected {| items := Some <$> sample_events |}
              sample_events eq_refl eq_refl eq_refl
              ltac:(repeat constructor; by eexists) spec_sort_permutes)
    as (sorted & d' & ga' & Hshow & _).
  exists d', ga'. split; [exact Hshow|].
  vm_compute in Hshow. injection Hshow as _ <-. reflexivity.
Defined.

(** C10: both walks stop at the first link without data.  The filter has
    clauses only for the matching events before that link, whatever comes
    after it, for the walk itself and for [prepareFilter] as a whole; and
    [updateCalls] adds rows only for the calls before such a link, as if the
    call list ended there. *)
Theorem walks_stop_at_null_data {E : External}
    (sel : gset Z) (before : list seq_analysis_item_t)
    (after : GList seq_analysis_item_t)
    (tree : QTreeWidget) (shown : GList voip_calls_info_t)
    (new : list voip_calls_info_t) (rest : GList voip_calls_info_t) :
  length shown = topLevelItemCount tree ->
  prepareFilter_walk sel ((Some <$> before) ++ None :: after)
    EmptyString EmptyString
  = String.concat " or " (filter_clause <$> matching_events sel before)
  /\ (forall (d : VoipCallsDialog) (ga : seq_analysis_info_t),
        graph_analysis (tapinfo_ d) = Some ga ->
        items ga = (Some <$> before) ++ None :: after ->
        selectedItems (callTreeWidget d) <> [] ->
        Forall has_call (selectedItems (callTreeWidget d)) ->
        prepareFilter d
        = Returned (Some (String.concat " or "
            (filter_clause <$>
               matching_events (selected_call_ids (callTreeWidget d)) before))))
  /\ updateCalls_tree (shown ++ (Some <$> new) ++ None :: rest) tree
     = updateCalls_tree (shown ++ (Some <$> new)) tree
  /\ topLevelItems (updateCalls_tree (shown ++ (Some <$> new) ++ None :: rest) tree)
     = sortItems (sortColumn tree) (sortOrder tree)
         (drawData <$>
            (topLevelItems tree
             ++ ((fun c => new_VoipCallsTreeWidgetItem (Some c)) <$> new)))
  /\ topLevelItemCount
       (updateCalls_tree (shown ++ (Some <$> new) ++ None :: rest) tree)
     = (topLevelItemCount tree + length new)%nat.
Proof.
  intros Hshown.
  split; [by rewrite walk_from_empty, leading_data_null|].
  split.
  { intros d ga Hga Hitems Hne Hsel.
    rewrite (prepareFilter_selected d ga Hga Hne Hsel), Hitems.
    by rewrite leading_data_null. }
  assert (leading_data
            (g_queue_peek_nth_link (shown ++ (Some <$> new) ++ None :: rest)
               (topLevelItemCount tree)) = new) as Hnull.
  { unfold g_queue_peek_nth_link.
    rewrite drop_app_length' by (by symmetry). apply leading_data_null. }
  assert (leading_data
            (g_queue_peek_nth_link (shown ++ (Some <$> new))
               (topLevelItemCount tree)) = new) as Hend.
  { unfold g_queue_peek_nth_link.
    rewrite drop_app_length' by (by symmetry). apply leading_data_Some. }
  split; [|split].
  - rewrite !updateCalls_tree_closed. cbv zeta. unfold new_rows.
    by rewrite Hnull, Hend.
  - rewrite updateCalls_tree_closed. cbv zeta. unfold new_rows.
    by rewrite Hnull.
  - by rewrite updateCalls_tree_count, Hnull.
Qed.

Lemma walks_stop_at_null_data_witness :
  prepareFilter_walk {[1]}
    ((Some <$> [sample_event 1 3; sample_event 2 4])
       ++ None :: (Some <$> [sample_event 1 7]))
    EmptyString EmptyString
  = "frame.number == 3"
  /\ topLevelItemCount
       (updateCalls_tree (E := spec_External)
          ([Some call_1] ++ (Some <$> [call_2]) ++ None :: [Some call_5])
          (sample_tree [row_1]))
     = 2%nat.
Proof.
  pose proof (walks_stop_at_null_data (E := spec_External) {[1]}
                [sample_event 1 3; sample_event 2 4]
                (Some <$> [sample_event 1 7])
                (sample_tree [row_1]) [Some call_1] [call_2] [Some call_5]
                eq_refl) as (Hwalk & _ & _ & _ & Hcount).
  split; [exact Hwalk | exact Hcount].
Defined.

(** * Further properties of the dialog *)

Set Warnings "-clear-no-such-hyp".

(** ** Drawing a row *)

Section DrawData.
Context {E : External}.

Lemma drawData_user_data (it : VoipCallsTreeWidgetItem) :
  user_data (drawData it) = user_data it.
Proof.
  unfold drawData. destruct (user_data it) eqn:Hc; [|by rewrite Hc].
  cbn [setText user_data]. exact Hc.
Qed.

Lemma drawData_isSelected (it : VoipCallsTreeWidgetItem) :
  isSelected (drawData it) = isSelected it.
Proof. unfold drawData. by destruct (user_data it). Qed.

Lemma text_set_texts_other (kvs : list (Z * QString.t))
    (it : VoipCallsTreeWidgetItem) (column : Z) :
  column ∉ kvs.*1 -> text (set_texts kvs it) column = text it column.
Proof.
  intros Hout. rewrite set_texts_spec. unfold text. cbn [texts].
  rewrite lookup_union_r; [reflexivity|].
  by apply not_elem_of_list_to_map_1.
Qed.

Lemma text_set_texts_first (kvs : list (Z * QString.t))
    (it : VoipCallsTreeWidgetItem) (column : Z) (s : QString.t) :
  NoDup kvs.*1 -> (column, s) ∈ kvs -> text (set_texts kvs it) column = s.
Proof.
  intros Hnd Hin. rewrite set_texts_spec. unfold text. cbn [texts].
  by rewrite (lookup_union_Some_l _ _ _ s)
    by (by apply elem_of_list_to_map_1).
Qed.

Lemma row_texts_columns (c : voip_calls_info_t) :
  (row_texts c).*1
  = [comments_col_; state_col_; packets_col_; protocol_col_; to_col_;
     from_col_; initial_speaker_col_; stop_time_col_; start_time_col_].
Proof. reflexivity. Qed.

Lemma row_texts_NoDup (c : voip_calls_info_t) : NoDup (row_texts c).*1.
Proof.
  rewrite row_texts_columns. by apply (bool_decide_unpack _).
Qed.

(** The text a drawn row shows in the column of an entry of [row_texts]. *)
Lemma drawData_text_of (it : VoipCallsTreeWidgetItem) (c : voip_calls_info_t)
    (column : Z) (s : QString.t) :
  user_data it = Some c -> (column, s) ∈ row_texts c ->
  text (drawData it) column = s.
Proof.
  intros Hc Hin. rewrite (drawData_set_texts it c Hc).
  by apply text_set_texts_first; [apply row_texts_NoDup|].
Qed.

End DrawData.

Ltac row_text_entry :=
  unfold row_texts; rewrite !elem_of_cons; tauto.

(** X1: [drawData] keeps the call pointer and the selection of a row,
    leaves a row without call as it is, never changes the text of a column
    outside 0..8, and for a row with a call sets the nine columns to the
    texts of that call: the two times, the address, the two identities,
    the protocol name (the call's own name only for VOIP_COMMON with a name,
    the table name otherwise), the packet count in decimal, the state name
    and the comment. *)
Theorem drawData_columns {E : External} (it : VoipCallsTreeWidgetItem) :
  user_data (drawData it) = user_data it
  /\ isSelected (drawData it) = isSelected it
  /\ (user_data it = None -> drawData it = it)
  /\ (forall column : Z, column < 0 \/ 8 < column ->
        text (drawData it) column = text it column)
  /\ (forall c : voip_calls_info_t, user_data it = Some c ->
        text (drawData it) start_time_col_ = nstime_to_sec_f6 (start_rel_ts c)
        /\ text (drawData it) stop_time_col_ = nstime_to_sec_f6 (stop_rel_ts c)
        /\ text (drawData it) initial_speaker_col_
           = address_to_display (initial_speaker c)
        /\ text (drawData it) from_col_ = from_identity c
        /\ text (drawData it) to_col_ = to_identity c
        /\ text (drawData it) packets_col_ = QString.number (npackets c)
        /\ text (drawData it) state_col_ = voip_call_state_name (call_state c)
        /\ text (drawData it) comments_col_ = call_comments c
        /\ (protocol c = VOIP_COMMON ->
            forall name, protocol_name c = Some name ->
            text (drawData it) protocol_col_ = name)
        /\ (protocol c <> VOIP_COMMON \/ protocol_name c = None ->
            text (drawData it) protocol_col_ = voip_protocol_name (protocol c))).
Proof.
  split; [apply drawData_user_data|].
  split; [apply drawData_isSelected|].
  split; [intros Hn; unfold drawData; by rewrite Hn|].
  split.
  - intros column Hout. destruct (user_data it) as [c|] eqn:Hc.
    + rewrite (drawData_set_texts it c Hc). apply text_set_texts_other.
      rewrite row_texts_columns, !elem_of_cons, elem_of_nil.
      unfold comments_col_, state_col_, packets_col_, protocol_col_, to_col_,
        from_col_, initial_speaker_col_, stop_time_col_, start_time_col_.
      lia.
    + unfold drawData. by rewrite Hc.
  - intros c Hc.
    repeat (split; [apply (drawData_text_of it c); [exact Hc|row_text_entry]|]).
    split.
    + intros Hp name Hname. apply (drawData_text_of it c); [exact Hc|].
      unfold row_texts. rewrite Hname.
      destruct (decide (protocol c = VOIP_COMMON)); [|contradiction].
      rewrite !elem_of_cons. tauto.
    + intros Hor. apply (drawData_text_of it c); [exact Hc|].
      unfold row_texts.
      destruct (decide (protocol c = VOIP_COMMON)) as [Hp|Hp];
        destruct (protocol_name c) as [name|] eqn:Hname;
        try (rewrite !elem_of_cons; tauto).
      destruct Hor as [Hor|Hor]; [contradiction|discriminate].
Qed.

Lemma drawData_columns_witness :
  text (drawData (E := spec_External) row_1) packets_col_ = "4"
  /\ text (drawData (E := spec_External) row_1) protocol_col_ = "SIP".
Proof.
  pose proof (proj2 (proj2 (proj2 (proj2
    (drawData_columns (E := spec_External) row_1)))) call_1 eq_refl)
    as (_ & _ & _ & _ & _ & Hp & _ & _ & _ & Hn).
  split; [exact Hp|]. apply Hn. left. discriminate.
Defined.

(** X2: for every protocol other than ISUP and H.323 the comment is the
    call's own comment, verbatim, both as computed and as the text of the
    comment column of the drawn row. *)
Theorem other_protocols_comment_verbatim {E : External}
    (it : VoipCallsTreeWidgetItem) (c : voip_calls_info_t) :
  user_data it = Some c ->
  protocol c <> VOIP_ISUP ->
  protocol c <> VOIP_H323 ->
  call_comments c = call_comment c
  /\ text (drawData it) comments_col_ = call_comment c.
Proof.
  intros Hc Hisup Hh323.
  assert (call_comments c = call_comment c) as Hcc.
  { destruct c as [st fi ti sp p pn cc cn pi np t0 t1].
    unfold call_comments. cbn [protocol prot_info call_comment] in *.
    destruct p; try reflexivity; contradiction. }
  split; [exact Hcc|].
  rewrite <- Hcc. apply (drawData_text_of it c); [exact Hc|row_text_entry].
Qed.

Lemma other_protocols_comment_verbatim_witness :
  text (drawData (E := spec_External) row_1) comments_col_ = "INVITE 200".
Proof.
  apply (proj2 (other_protocols_comment_verbatim (E := spec_External)
                  row_1 call_1 eq_refl ltac:(discriminate)
                  ltac:(discriminate))).
Defined.

(** ** More on the comparator *)

(** X3: a row whose call pointer is null is never less than another row
    and no row is less than it, under every column; so when one row is less
    than another, such a row is tied with both although the two are not tied
    with each other: with a null call pointer among the rows the ties are not
    transitive. *)
Theorem null_call_rows_are_tied {E : External} (column : Z)
    (a b n : VoipCallsTreeWidgetItem) :
  user_data n = None ->
  tied column n a
  /\ (operator_lt column a b = true ->
      tied column a n /\ tied column n b /\ ~ tied column a b).
Proof.
  intros Hn.
  assert (forall x, tied column n x) as Hnx.
  { intros x. unfold tied, operator_lt. rewrite Hn.
    by destruct (user_data x). }
  split; [apply Hnx|]. intros Hab.
  split; [destruct (Hnx a); by split|].
  split; [apply Hnx|].
  intros [Hf _]. rewrite Hab in Hf. discriminate.
Qed.

Lemma null_call_rows_are_tied_witness :
  tied (E := spec_External) packets_col_ row_5 row_without_call
  /\ tied (E := spec_External) packets_col_ row_without_call row_2
  /\ ~ tied (E := spec_External) packets_col_ row_5 row_2.
Proof.
  exact (proj2 (null_call_rows_are_tied (E := spec_External) packets_col_
                  row_5 row_2 row_without_call eq_refl) eq_refl).
Defined.

(** X4: under the packet-count column, whatever the helpers are, a row
    with a call is less than another exactly when its call has fewer packets,
    and the two are tied exactly when the counts are equal. *)
Theorem packets_key_compares_counts {E : External}
    (a b : VoipCallsTreeWidgetItem) (ca cb : voip_calls_info_t) :
  user_data a = Some ca ->
  user_data b = Some cb ->
  (operator_lt packets_col_ a b = true <-> npackets ca < npackets cb)
  /\ (tied packets_col_ a b <-> npackets ca = npackets cb).
Proof.
  intros Ha Hb. unfold tied, operator_lt. rewrite Ha, Hb.
  change (packets_col_ =? start_time_col_) with false.
  change (packets_col_ =? stop_time_col_) with false.
  change (packets_col_ =? initial_speaker_col_) with false.
  change (packets_col_ =? packets_col_) with true.
  cbv iota. rewrite Z.ltb_lt, !Z.ltb_ge. lia.
Qed.

Lemma packets_key_compares_counts_witness :
  operator_lt (E := spec_External) packets_col_ row_1 row_2 = true.
Proof.
  apply (proj1 (packets_key_compares_counts (E := spec_External)
                  row_1 row_2 call_1 call_2 eq_refl eq_refl)).
  reflexivity.
Defined.

(** X5: under the start-time, stop-time, initial-speaker and packet-count
    columns the comparator reads nothing but the two calls: rows with the same
    call pointers compare alike whatever their texts and selection; under
    every other column, rows with calls are compared by the texts they show
    in that column. *)
Theorem comparator_reads_calls_or_texts {E : External} (column : Z)
    (a b a' b' : VoipCallsTreeWidgetItem) :
  (user_data a' = user_data a -> user_data b' = user_data b ->
   column = start_time_col_ \/ column = stop_time_col_
   \/ column = initial_speaker_col_ \/ column = packets_col_ ->
   operator_lt column a' b' = operator_lt column a b)
  /\ (is_Some (user_data a) -> is_Some (user_data b) ->
      column <> start_time_col_ -> column <> stop_time_col_ ->
      column <> initial_speaker_col_ -> column <> packets_col_ ->
      operator_lt column a b
      = variantLessThan (text a column) (text b column)).
Proof.
  split.
  - intros Ha Hb Hcol. unfold operator_lt. rewrite Ha, Hb.
    destruct (user_data a); [|reflexivity].
    destruct (user_data b); [|reflexivity].
    destruct Hcol as [ -> | [ -> | [ -> | -> ] ] ]; reflexivity.
  - intros [ca Ha] [cb Hb] H0 H1 H2 H6. unfold operator_lt. rewrite Ha, Hb.
    apply Z.eqb_neq in H0, H1, H2, H6. by rewrite H0, H1, H2, H6.
Qed.

Lemma comparator_reads_calls_or_texts_witness :
  operator_lt (E := spec_External) packets_col_
    (sample_row true call_1) (sample_row true call_2)
  = operator_lt (E := spec_External) packets_col_ row_1 row_2
  /\ operator_lt (E := spec_External) from_col_ row_1 row_2
     = @variantLessThan spec_External
         (text row_1 from_col_) (text row_2 from_col_).
Proof.
  split.
  - apply (proj1 (comparator_reads_calls_or_texts (E := spec_External)
                    packets_col_ row_1 row_2
                    (sample_row true call_1) (sample_row true call_2)));
      [reflexivity | reflexivity | tauto].
  - apply (proj2 (comparator_reads_calls_or_texts (E := spec_External)
                    from_col_ row_1 row_2 row_1 row_2));
      (by eexists) || discriminate.
Defined.

(** ** Outcomes of the two slots *)

Lemma collect_selected_calls_null (sel : list VoipCallsTreeWidgetItem) acc :
  ~ Forall has_call sel -> collect_selected_calls sel acc = NullDereference.
Proof.
  revert acc. induction sel as [|ti sel IH]; intros acc Hnot.
  - destruct Hnot. constructor.
  - simpl. destruct (user_data ti) as [c|] eqn:Hc; [|reflexivity].
    apply IH. intros Hsel. apply Hnot. constructor; [by eexists | exact Hsel].
Qed.

Lemma collect_selected_calls_outcome (sel : list VoipCallsTreeWidgetItem) acc :
  collect_selected_calls sel acc = NullDereference <-> ~ Forall has_call sel.
Proof.
  split; [|apply collect_selected_calls_null].
  intros Hnull Hsel. by rewrite (collect_selected_calls_ok sel acc Hsel) in Hnull.
Qed.

#[local] Instance has_call_dec (it : VoipCallsTreeWidgetItem) :
  Decision (has_call it).
Proof. unfold has_call. apply _. Defined.

(** X6: what [prepareFilter] does is decided by the selection and the
    graph pointer alone: it returns without a signal exactly when no row is
    selected or there is no graph; it reads through a null pointer exactly
    when rows are selected, there is a graph and some selected row has no
    call; it emits a filter exactly when rows are selected, there is a graph
    and every selected row has a call. *)
Theorem prepareFilter_outcomes (d : VoipCallsDialog) :
  (prepareFilter d = Returned None <->
   selectedItems (callTreeWidget d) = [] \/ graph_analysis (tapinfo_ d) = None)
  /\ (prepareFilter d = NullDereference <->
      selectedItems (callTreeWidget d) <> []
      /\ graph_analysis (tapinfo_ d) <> None
      /\ ~ Forall has_call (selectedItems (callTreeWidget d)))
  /\ ((exists f, prepareFilter d = Returned (Some f)) <->
      selectedItems (callTreeWidget d) <> []
      /\ graph_analysis (tapinfo_ d) <> None
      /\ Forall has_call (selectedItems (callTreeWidget d))).
Proof.
  unfold prepareFilter.
  destruct (selectedItems (callTreeWidget d)) as [|ti sel] eqn:Hsi.
  { split; [|split]; naive_solver. }
  destruct (graph_analysis (tapinfo_ d)) as [ga|] eqn:Hga.
  2:{ split; [|split]; naive_solver. }
  destruct (decide (Forall has_call (ti :: sel))) as [Hsel|Hsel].
  - rewrite (collect_selected_calls_ok _ ∅ Hsel).
    split; [|split]; naive_solver.
  - rewrite (collect_selected_calls_null _ ∅ Hsel).
    split; [|split]; naive_solver.
Qed.

Lemma prepareFilter_outcomes_witness :
  prepareFilter dialog_none_selected = Returned None
  /\ exists f, prepareFilter dialog_one_selected = Returned (Some f).
Proof.
  split.
  - apply (proj1 (prepareFilter_outcomes dialog_none_selected)). by left.
  - apply (proj2 (proj2 (prepareFilter_outcomes dialog_one_selected))).
    split; [discriminate|]. split; [discriminate|].
    repeat constructor; by eexists.
Defined.

(** X7: the filter [prepareFilter] builds is empty exactly when no event
    before the first link without data belongs to a selected call; when it is
    not empty it begins with a clause, not with a join token. *)
Theorem filter_empty_iff_no_match (sel : gset Z)
    (nodes : GList seq_analysis_item_t) :
  (prepareFilter_walk sel nodes EmptyString EmptyString = EmptyString <->
   matching_events sel (leading_data nodes) = [])
  /\ (prepareFilter_walk sel nodes EmptyString EmptyString <> EmptyString ->
      exists rest,
        prepareFilter_walk sel nodes EmptyString EmptyString
        = "frame.number == " +:+ rest).
Proof.
  rewrite walk_from_empty.
  destruct (matching_events sel (leading_data nodes)) as [|e l].
  - split; [done|]. intros Hne. by destruct Hne.
  - rewrite fmap_cons, concat_or_cons. unfold filter_clause at 1.
    rewrite append_assoc. split; [|by eexists].
    split; discriminate.
Qed.

Lemma filter_empty_iff_no_match_witness :
  prepareFilter_walk {[5]} (Some <$> sample_events) EmptyString EmptyString
  = EmptyString.
Proof.
  apply (proj1 (filter_empty_iff_no_match {[5]} (Some <$> sample_events))).
  reflexivity.
Defined.

(** ** More on the flow sequence *)

Lemma showSequence_walk_shape (sel : gset Z) (nodes : GList seq_analysis_item_t) :
  showSequence_walk sel nodes
  = (Some <$> (mark_display sel <$> leading_data nodes))
    ++ drop (length (leading_data nodes)) nodes.
Proof.
  induction nodes as [|[e|] nodes IH]; csimpl; try reflexivity.
  by rewrite IH.
Qed.

Lemma showSequence_walk_keys (sel : gset Z) (nodes : GList seq_analysis_item_t) :
  link_keys (showSequence_walk sel nodes) = link_keys nodes.
Proof.
  unfold link_keys.
  induction nodes as [|[e|] nodes IH]; csimpl; try reflexivity.
  by rewrite IH.
Qed.

Lemma showSequence_walk_length (sel : gset Z) (nodes : GList seq_analysis_item_t) :
  length (showSequence_walk sel nodes) = length nodes.
Proof.
  induction nodes as [|[e|] nodes IH]; csimpl; try reflexivity.
  by rewrite IH.
Qed.

Lemma leading_data_showSequence_walk (sel : gset Z)
    (nodes : GList seq_analysis_item_t) :
  leading_data (showSequence_walk sel nodes)
  = mark_display sel <$> leading_data nodes.
Proof.
  induction nodes as [|[e|] nodes IH]; csimpl; try reflexivity.
  by rewrite IH.
Qed.

(** X8: the walk of [showSequence] stops at the first link without data
    too: the events before it get their display flag from the selection, that
    link and all links after it are left exactly as they were; no link is
    added or removed, and no event has its frame or its call number
    changed. *)
Theorem showSequence_walk_stops_at_null_data (sel : gset Z)
    (before : list seq_analysis_item_t)
    (after nodes : GList seq_analysis_item_t) :
  showSequence_walk sel ((Some <$> before) ++ None :: after)
  = (Some <$> (mark_display sel <$> before)) ++ None :: after
  /\ length (showSequence_walk sel nodes) = length nodes
  /\ link_keys (showSequence_walk sel nodes) = link_keys nodes.
Proof.
  split; [|split].
  - rewrite showSequence_walk_shape, leading_data_null.
    by rewrite drop_app_length' by (by rewrite length_fmap).
  - apply showSequence_walk_length.
  - apply showSequence_walk_keys.
Qed.

Lemma showSequence_keeps_dialog {E : External}
    (d d' : VoipCallsDialog) (g : option seq_analysis_info_t) :
  showSequence d = Returned (d', g) ->
  callTreeWidget d' = callTreeWidget d
  /\ callsinfos (tapinfo_ d') = callsinfos (tapinfo_ d)
  /\ file_closed_ d' = file_closed_ d
  /\ prepare_button_enabled d' = prepare_button_enabled d
  /\ sequence_button_enabled d' = sequence_button_enabled d
  /\ player_button_enabled d' = player_button_enabled d
  /\ player_button_text d' = player_button_text d
  /\ (file_closed_ d = false -> g = graph_analysis (tapinfo_ d')
                                /\ is_Some g)
  /\ (file_closed_ d = true -> d' = d /\ g = None).
Proof.
  unfold showSequence. destruct (file_closed_ d) eqn:Hfc.
  { intros [= <- <-]. naive_solver. }
  destruct (collect_selected_calls (selectedItems (callTreeWidget d)) ∅)
    as [sel|]; [|discriminate].
  destruct (graph_analysis (tapinfo_ d)) as [ga|]; [|discriminate].
  intros [= <- <-]. cbn. naive_solver.
Qed.

(** X9: what [showSequence] does is decided by the file, the selection
    and the graph pointer: with the file closed it returns at once, changes
    nothing and shows nothing; with the file open it reads through a null
    pointer exactly when some selected row has no call or there is no graph;
    otherwise it hands over the graph, and of the dialog it changes the graph
    only: the rows, the call list and the buttons stay as they are. *)
Theorem showSequence_outcomes {E : External} (d : VoipCallsDialog) :
  (file_closed_ d = true -> showSequence d = Returned (d, None))
  /\ (showSequence d = NullDereference <->
      file_closed_ d = false
      /\ (~ Forall has_call (selectedItems (callTreeWidget d))
          \/ graph_analysis (tapinfo_ d) = None))
  /\ (forall d' g, showSequence d = Returned (d', g) ->
        callTreeWidget d' = callTreeWidget d
        /\ callsinfos (tapinfo_ d') = callsinfos (tapinfo_ d)
        /\ file_closed_ d' = file_closed_ d
        /\ prepare_button_enabled d' = prepare_button_enabled d
        /\ sequence_button_enabled d' = sequence_button_enabled d
        /\ player_button_enabled d' = player_button_enabled d
        /\ player_button_text d' = player_button_text d
        /\ (file_closed_ d = false -> g = graph_analysis (tapinfo_ d')
                                      /\ is_Some g)).
Proof.
  split; [|split].
  - intros Hfc. unfold showSequence. by rewrite Hfc.
  - unfold showSequence. destruct (file_closed_ d) eqn:Hfc; [naive_solver|].
    destruct (decide (Forall has_call (selectedItems (callTreeWidget d))))
      as [Hsel|Hsel].
    + rewrite (collect_selected_calls_ok _ ∅ Hsel).
      destruct (graph_analysis (tapinfo_ d)); naive_solver.
    + rewrite (collect_selected_calls_null _ ∅ Hsel). naive_solver.
  - intros d' g Hshow.
    destruct (showSequence_keeps_dialog d d' g Hshow)
      as (? & ? & ? & ? & ? & ? & ? & ? & _).
    naive_solver.
Qed.

Lemma showSequence_outcomes_witness :
  exists d' g,
    showSequence (E := spec_External) dialog_one_selected = Returned (d', g)
    /\ callTreeWidget d' = callTreeWidget dialog_one_selected /\ is_Some g.
Proof.
  eexists _, _. split; [reflexivity|].
  destruct (proj2 (proj2 (showSequence_outcomes (E := spec_External)
                            dialog_one_selected)) _ _ eq_refl)
    as (Htree & _ & _ & _ & _ & _ & _ & Hg).
  split; [exact Htree | apply Hg; reflexivity].
Defined.

(** X10: [showSequence] has no guard on the selection: with the file
    open, a graph and no row selected, [prepareFilter] does nothing, but
    [showSequence] still runs, hands the graph over and clears the display
    flag of every event it reaches. *)
Theorem showSequence_nothing_selected {E : External}
    (d : VoipCallsDialog) (ga : seq_analysis_info_t) :
  file_closed_ d = false ->
  graph_analysis (tapinfo_ d) = Some ga ->
  selectedItems (callTreeWidget d) = [] ->
  prepareFilter d = Returned None
  /\ exists d' ga',
       showSequence d = Returned (d', Some ga')
       /\ Forall (fun e => display e = FALSE) (leading_data (items ga'))
       /\ length (items ga')
          = length (sequence_analysis_list_sort (items ga)).
Proof.
  intros Hfc Hga Hsi.
  split; [by apply prepareFilter_nothing_selected|].
  unfold showSequence. rewrite Hfc, Hsi, Hga. cbn [collect_selected_calls].
  eexists _, _. split; [reflexivity|]. cbn [items].
  unfold g_queue_peek_nth_link. rewrite drop_0.
  split.
  - rewrite leading_data_showSequence_walk. apply Forall_fmap, Forall_forall.
    intros e _. unfold mark_display. cbn.
    rewrite bool_decide_eq_false_2; [reflexivity | apply not_elem_of_empty].
  - apply showSequence_walk_length.
Qed.

Lemma showSequence_nothing_selected_witness :
  exists d' ga',
    showSequence (E := spec_External) dialog_none_selected
    = Returned (d', Some ga')
    /\ Forall (fun e => display e = FALSE) (leading_data (items ga')).
Proof.
  destruct (proj2 (showSequence_nothing_selected (E := spec_External)
                     dialog_none_selected {| items := Some <$> sample_events |}
                     eq_refl eq_refl eq_refl))
    as (d' & ga' & Hshow & Hall & _).
  by exists d', ga'.
Defined.

(** ** The two slots together *)

Lemma prepareFilter_walk_keys (sel : gset Z)
    (nodes nodes' : GList seq_analysis_item_t) acc pre :
  link_keys nodes = link_keys nodes' ->
  prepareFilter_walk sel nodes acc pre = prepareFilter_walk sel nodes' acc pre.
Proof.
  unfold link_keys. revert nodes' acc pre.
  induction nodes as [|[e|] nodes IH]; intros [|[e'|] nodes'] acc pre Hk;
    csimpl in *; try done.
  injection Hk as Hfd Hconv Hrest. rewrite Hfd, Hconv.
  destruct (decide (conv_num e' ∈ sel)); by apply IH.
Qed.

(** X11: the filter does not depend on the display flags, so showing the
    flow sequence does not change the filter that is prepared next, as long
    as sorting the graph leaves its links in place (as it does when the events
    already are in the sorted order); selection and graph pointer being
    untouched, [prepareFilter] does after [showSequence] what it did
    before. *)
Theorem prepareFilter_after_showSequence {E : External}
    (d d' : VoipCallsDialog) (g : option seq_analysis_info_t) :
  showSequence d = Returned (d', g) ->
  (forall ga, graph_analysis (tapinfo_ d) = Some ga ->
              sequence_analysis_list_sort (items ga) = items ga) ->
  prepareFilter d' = prepareFilter d.
Proof.
  unfold showSequence. intros Hshow Hsorted.
  destruct (file_closed_ d); [by injection Hshow as <- _|].
  destruct (collect_selected_calls (selectedItems (callTreeWidget d)) ∅)
    as [sel|] eqn:Hsel; [|discriminate].
  destruct (graph_analysis (tapinfo_ d)) as [ga|] eqn:Hga; [|discriminate].
  injection Hshow as <- _. unfold prepareFilter.
  cbn [callTreeWidget tapinfo_ graph_analysis items]. rewrite Hga.
  destruct (selectedItems (callTreeWidget d)) as [|ti rest]; [reflexivity|].
  destruct (collect_selected_calls (ti :: rest) ∅) as [sel'|]; [|reflexivity].
  do 2 f_equal. unfold g_queue_peek_nth_link. rewrite !drop_0.
  apply prepareFilter_walk_keys.
  by rewrite showSequence_walk_keys, (Hsorted ga eq_refl).
Qed.

Lemma prepareFilter_after_showSequence_witness :
  exists d' g,
    showSequence (E := spec_External) dialog_one_selected = Returned (d', g)
    /\ prepareFilter d' = prepareFilter dialog_one_selected.
Proof.
  eexists _, _. split; [reflexivity|].
  apply (prepareFilter_after_showSequence (E := spec_External)
           dialog_one_selected _ _ eq_refl).
  intros ga [= <-]. reflexivity.
Defined.

(** X12: a click on a button of the box never touches the rows of the
    table, the call list, the closed flag or the state of the buttons; only
    the sequence button can change the dialog at all (the graph) and only it
    can show a sequence; only the prepare button can emit a filter; a click on
    any other button does nothing. *)
Theorem on_buttonBox_clicked_effects {E : External}
    (button : QAbstractButton) (d d' : VoipCallsDialog)
    (f : option QString.t) (g : option seq_analysis_info_t) :
  on_buttonBox_clicked button d = Returned (d', f, g) ->
  callTreeWidget d' = callTreeWidget d
  /\ callsinfos (tapinfo_ d') = callsinfos (tapinfo_ d)
  /\ file_closed_ d' = file_closed_ d
  /\ prepare_button_enabled d' = prepare_button_enabled d
  /\ sequence_button_enabled d' = sequence_button_enabled d
  /\ player_button_enabled d' = player_button_enabled d
  /\ (button <> sequence_button_ -> d' = d /\ g = None)
  /\ (button <> prepare_button_ -> f = None)
  /\ (button = prepare_button_ -> prepareFilter d = Returned f)
  /\ (button = sequence_button_ -> showSequence d = Returned (d', g)).
Proof.
  unfold on_buttonBox_clicked. intros Hclick.
  destruct button.
  - destruct (prepareFilter d) as [f'|]; [|discriminate].
    injection Hclick as <- <- <-. naive_solver.
  - destruct (showSequence d) as [[d'' g']|] eqn:Hshow; [|discriminate].
    injection Hclick as <- <- <-.
    destruct (showSequence_keeps_dialog d d'' g' Hshow)
      as (? & ? & ? & ? & ? & ? & _).
    naive_solver.
  - injection Hclick as <- <- <-. naive_solver.
  - injection Hclick as <- <- <-. naive_solver.
Qed.

Lemma on_buttonBox_clicked_effects_witness :
  exists d' f g,
    on_buttonBox_clicked (E := spec_External) sequence_button_
      dialog_one_selected = Returned (d', f, g)
    /\ callTreeWidget d' = callTreeWidget dialog_one_selected
    /\ f = None.
Proof.
  eexists _, _, _. split; [reflexivity|].
  destruct (on_buttonBox_clicked_effects (E := spec_External)
              sequence_button_ dialog_one_selected _ _ _ eq_refl)
    as (Htree & _ & _ & _ & _ & _ & _ & Hf & _).
  split; [exact Htree | apply Hf; discriminate].
Defined.

(** ** More on refreshing the call table *)

Section RefreshFacts.
Context {E : External}.

Lemma rows_after_refresh_perm (d : VoipCallsDialog) :
  rows_after_refresh d
  ≡ₚ drawData <$>
       (topLevelItems (callTreeWidget d)
        ++ ((fun c => new_VoipCallsTreeWidgetItem (Some c)) <$> calls_to_add d)).
Proof.
  unfold rows_after_refresh, calls_to_add.
  change (callTreeWidget (updateCalls d))
    with (updateCalls_tree (callsinfos (tapinfo_ d)) (callTreeWidget d)).
  rewrite updateCalls_tree_closed. cbv zeta. cbn [topLevelItems].
  unfold sortItems. by rewrite stable_sort_perm.
Qed.

Lemma new_row_user_data (c : voip_calls_info_t) :
  user_data (new_VoipCallsTreeWidgetItem (Some c)) = Some c.
Proof. unfold new_VoipCallsTreeWidgetItem. by rewrite drawData_user_data. Qed.

Lemma new_row_isSelected (c : voip_calls_info_t) :
  isSelected (new_VoipCallsTreeWidgetItem (Some c)) = false.
Proof. unfold new_VoipCallsTreeWidgetItem. by rewrite drawData_isSelected. Qed.

Lemma selected_of_drawn (l : list VoipCallsTreeWidgetItem) :
  filter (fun it => isSelected it = true) (drawData <$> l)
  = drawData <$> filter (fun it => isSelected it = true) l.
Proof.
  induction l as [|it l IH]; [reflexivity|].
  rewrite fmap_cons, !filter_cons, drawData_isSelected, IH.
  by destruct (decide (isSelected it = true)).
Qed.

Lemma selected_of_new_rows (cs : list voip_calls_info_t) :
  filter (fun it => isSelected it = true)
    (drawData <$> ((fun c => new_VoipCallsTreeWidgetItem (Some c)) <$> cs))
  = [].
Proof.
  induction cs as [|c cs IH]; [reflexivity|].
  rewrite !fmap_cons, filter_cons_False; [exact IH|].
  by rewrite drawData_isSelected, new_row_isSelected.
Qed.

Lemma selectedItems_after_refresh (d : VoipCallsDialog) :
  selectedItems (callTreeWidget (updateCalls d))
  ≡ₚ drawData <$> selectedItems (callTreeWidget d).
Proof.
  unfold selectedItems. fold (rows_after_refresh d).
  rewrite rows_after_refresh_perm, fmap_app, filter_app.
  rewrite selected_of_drawn, selected_of_new_rows.
  by rewrite (right_id_L [] (++)).
Qed.

Lemma selected_count_after_refresh (d : VoipCallsDialog) :
  length (selectedItems (callTreeWidget (updateCalls d)))
  = length (selectedItems (callTreeWidget d)).
Proof. by rewrite selectedItems_after_refresh, length_fmap. Qed.

Lemma call_nums_of_drawn (l : list VoipCallsTreeWidgetItem) :
  omap (fun it => call_num <$> user_data it) (drawData <$> l)
  = omap (fun it => call_num <$> user_data it) l.
Proof.
  induction l as [|it l IH]; [reflexivity|].
  rewrite fmap_cons. cbn [omap list_omap]. by rewrite drawData_user_data, IH.
Qed.

Lemma has_call_after_refresh (d : VoipCallsDialog) :
  Forall has_call (topLevelItems (callTreeWidget d)) ->
  Forall has_call (rows_after_refresh d).
Proof.
  intros Hrows. rewrite rows_after_refresh_perm.
  apply Forall_fmap, Forall_app. split.
  - eapply Forall_impl; [exact Hrows|]. intros it Hit.
    unfold has_call, compose. by rewrite drawData_user_data.
  - apply Forall_fmap, Forall_forall. intros c _. unfold has_call, compose.
    rewrite drawData_user_data, new_row_user_data. by eexists.
Qed.

Lemma has_call_selected (tree : QTreeWidget) :
  Forall has_call (topLevelItems tree) -> Forall has_call (selectedItems tree).
Proof.
  rewrite !Forall_forall. intros Hrows it Hit.
  apply Hrows. unfold selectedItems in Hit.
  by apply list_elem_of_filter in Hit as [_ ?].
Qed.

End RefreshFacts.

(** X13: [updateCalls] never loses a row and never makes a row without a
    call: the rows afterwards are, in some order, the old rows redrawn
    followed by one new row per call from the row count on up to the first
    link without data; each old row keeps its call pointer, each new row
    points to its call; and if every row had a call before, every row has one
    afterwards. *)
Theorem refresh_keeps_rows {E : External} (d : VoipCallsDialog) :
  rows_after_refresh d
  ≡ₚ drawData <$>
       (topLevelItems (callTreeWidget d)
        ++ ((fun c => new_VoipCallsTreeWidgetItem (Some c)) <$> calls_to_add d))
  /\ user_data <$> rows_after_refresh d
     ≡ₚ (user_data <$> topLevelItems (callTreeWidget d))
        ++ (Some <$> calls_to_add d)
  /\ (Forall has_call (topLevelItems (callTreeWidget d)) ->
      Forall has_call (rows_after_refresh d)).
Proof.
  split; [apply rows_after_refresh_perm|].
  split; [|apply has_call_after_refresh].
  rewrite rows_after_refresh_perm, <- list_fmap_compose, fmap_app.
  rewrite <- list_fmap_compose.
  rewrite (list_fmap_ext _ user_data (topLevelItems (callTreeWidget d)))
    by (intros i it _; apply drawData_user_data).
  rewrite (list_fmap_ext _ Some (calls_to_add d)); [reflexivity|].
  intros i c _. unfold compose.
  by rewrite drawData_user_data, new_row_user_data.
Qed.

Lemma refresh_keeps_rows_witness :
  Forall has_call (rows_after_refresh (E := spec_External) dialog_fresh).
Proof.
  apply (proj2 (proj2 (refresh_keeps_rows (E := spec_External) dialog_fresh))).
  constructor.
Defined.

(** X14: [updateCalls] does not change the selection: the selected rows
    afterwards are the selected rows of before, redrawn (new rows are not
    selected), so the set of selected call numbers, from which the two slots
    work, is the same. *)
Theorem refresh_keeps_selection {E : External} (d : VoipCallsDialog) :
  selectedItems (callTreeWidget (updateCalls d))
  ≡ₚ drawData <$> selectedItems (callTreeWidget d)
  /\ selected_call_ids (callTreeWidget (updateCalls d))
     = selected_call_ids (callTreeWidget d)
  /\ length (selectedItems (callTreeWidget (updateCalls d)))
     = length (selectedItems (callTreeWidget d)).
Proof.
  pose proof (selectedItems_after_refresh d) as Hsel.
  split; [exact Hsel|]. split.
  - unfold selected_call_ids.
    rewrite <- (call_nums_of_drawn (selectedItems (callTreeWidget d))).
    apply list_to_set_perm_L. by rewrite Hsel.
  - by rewrite Hsel, length_fmap.
Qed.

(** X15: after [updateCalls] the slots are safe: if every row had a call
    before, [prepareFilter] does not read through a null pointer, and
    [showSequence] can do so only when there is no graph. *)
Theorem slots_safe_after_refresh {E : External} (d : VoipCallsDialog) :
  Forall has_call (topLevelItems (callTreeWidget d)) ->
  prepareFilter (updateCalls d) <> NullDereference
  /\ (showSequence (updateCalls d) = NullDereference ->
      graph_analysis (tapinfo_ d) = None).
Proof.
  intros Hrows.
  pose proof (has_call_selected _ (has_call_after_refresh d Hrows)) as Hsel.
  fold (callTreeWidget (updateCalls d)) in Hsel.
  split.
  - unfold prepareFilter.
    destruct (selectedItems (callTreeWidget (updateCalls d))) as [|ti sel];
      [discriminate|].
    destruct (graph_analysis (tapinfo_ (updateCalls d))); [|discriminate].
    by rewrite (collect_selected_calls_ok _ ∅ Hsel).
  - unfold showSequence.
    destruct (file_closed_ (updateCalls d)); [discriminate|].
    rewrite (collect_selected_calls_ok _ ∅ Hsel).
    change (tapinfo_ (updateCalls d)) with (tapinfo_ d).
    by destruct (graph_analysis (tapinfo_ d)).
Qed.

Lemma slots_safe_after_refresh_witness :
  prepareFilter (updateCalls (E := spec_External) dialog_fresh)
  <> NullDereference.
Proof.
  apply (proj1 (slots_safe_after_refresh (E := spec_External) dialog_fresh
                  ltac:(constructor))).
Defined.

(** X16: after [updateCalls] the table is in the order of the current
    sort column and direction: no row is less (greater, when descending) than
    the row before it.  The helpers that compare times, addresses and texts
    are taken to be strict orders. *)
Theorem rows_sorted_after_refresh {E : External} (d : VoipCallsDialog) :
  ExternalOrders E ->
  locally_sorted
    (itemCompare (sortColumn (callTreeWidget d)) (sortOrder (callTreeWidget d)))
    (rows_after_refresh d)
  /\ sortColumn (callTreeWidget (updateCalls d)) = sortColumn (callTreeWidget d)
  /\ sortOrder (callTreeWidget (updateCalls d)) = sortOrder (callTreeWidget d).
Proof.
  intros orders. unfold rows_after_refresh.
  change (callTreeWidget (updateCalls d))
    with (updateCalls_tree (callsinfos (tapinfo_ d)) (callTreeWidget d)).
  rewrite updateCalls_tree_closed. cbv zeta.
  cbn [topLevelItems sortColumn sortOrder].
  split; [|by split]. unfold sortItems. apply stable_sort_sorted.
  intros a b. by apply itemCompare_asym.
Qed.

Lemma rows_sorted_after_refresh_witness :
  locally_sorted (itemCompare (E := spec_External) start_time_col_ AscendingOrder)
    (rows_after_refresh (E := spec_External) dialog_fresh).
Proof.
  exact (proj1 (rows_sorted_after_refresh (E := spec_External) dialog_fresh
                  spec_orders)).
Defined.

Lemma leading_data_length {A} (l : GList A) :
  (length (leading_data l) <= length l)%nat
  /\ (Forall is_Some l -> length (leading_data l) = length l).
Proof.
  induction l as [|[x|] l [IHle IHeq]]; simpl.
  - split; [lia|done].
  - split; [lia|]. intros Hall. apply Forall_cons in Hall as [_ Hall].
    by rewrite IHeq.
  - split; [lia|]. intros Hall. apply Forall_cons in Hall as [[? [=]] _].
Qed.

(** X17: [updateCalls] never removes rows and never shows more rows than
    there are calls (unless there were more before): the row count does not
    shrink and stays within the larger of the old count and the length of the
    call list; when no link of the call list lacks data and the table is not
    ahead of the list, the table catches up with it. *)
Theorem refresh_row_count {E : External} (d : VoipCallsDialog) :
  let before := topLevelItemCount (callTreeWidget d) in
  let after := topLevelItemCount (callTreeWidget (updateCalls d)) in
  let calls := callsinfos (tapinfo_ d) in
  (before <= after)%nat
  /\ (after <= Nat.max before (length calls))%nat
  /\ (Forall is_Some calls -> (before <= length calls)%nat ->
      after = length calls).
Proof.
  intros before after calls. subst after.
  change (callTreeWidget (updateCalls d))
    with (updateCalls_tree calls (callTreeWidget d)).
  rewrite updateCalls_tree_count. fold before.
  unfold g_queue_peek_nth_link.
  destruct (leading_data_length (drop before calls)) as [Hle Heq].
  rewrite length_drop in Hle.
  split; [lia|]. split; [lia|].
  intros Hall Hbefore. rewrite Heq, length_drop; [lia|].
  by apply Forall_drop.
Qed.

Lemma refresh_row_count_witness :
  topLevelItemCount
    (callTreeWidget (updateCalls (E := spec_External) dialog_one_selected))
  = 2%nat.
Proof.
  apply (proj2 (proj2 (refresh_row_count (E := spec_External)
                         dialog_one_selected))).
  - repeat constructor; by eexists.
  - reflexivity.
Defined.

(** X18: after [updateCalls] every row with a call shows the texts of
    that call as it is now: in particular the stop time, the packet count, the
    state and the comment, which change while a call goes on. *)
Theorem rows_show_their_calls_after_refresh {E : External}
    (d : VoipCallsDialog) (it : VoipCallsTreeWidgetItem)
    (c : voip_calls_info_t) :
  it ∈ rows_after_refresh d ->
  user_data it = Some c ->
  text it stop_time_col_ = nstime_to_sec_f6 (stop_rel_ts c)
  /\ text it packets_col_ = QString.number (npackets c)
  /\ text it state_col_ = voip_call_state_name (call_state c)
  /\ text it comments_col_ = call_comments c
  /\ (forall column s, (column, s) ∈ row_texts c -> text it column = s).
Proof.
  intros Hin Hc.
  pose proof (rows_drawn_after_refresh (callsinfos (tapinfo_ d))
                (callTreeWidget d)) as Hdrawn.
  rewrite Forall_forall in Hdrawn. specialize (Hdrawn it Hin).
  assert (forall column s, (column, s) ∈ row_texts c -> text it column = s)
    as Htexts.
  { intros column s Hs. rewrite <- Hdrawn. by apply (drawData_text_of it c). }
  repeat (split; [apply Htexts; row_text_entry|]). exact Htexts.
Qed.

Lemma rows_show_their_calls_after_refresh_witness :
  text (new_VoipCallsTreeWidgetItem (E := spec_External) (Some call_2))
    packets_col_ = "6".
Proof.
  refine (proj1 (proj2 (rows_show_their_calls_after_refresh
            (E := spec_External) dialog_fresh
            (new_VoipCallsTreeWidgetItem (E := spec_External) (Some call_2))
            call_2 _ eq_refl))).
  apply (list_elem_of_lookup_2 _ 0%nat). vm_compute. reflexivity.
Defined.

(** ** The buttons *)

Lemma updateWidgets_enabled (d : VoipCallsDialog) :
  prepare_button_enabled (updateWidgets d) = true ->
  selectedItems (callTreeWidget d) <> []
  /\ graph_analysis (tapinfo_ d) <> None.
Proof.
  unfold updateWidgets. cbn [prepare_button_enabled].
  destruct (selectedItems (callTreeWidget d)); [discriminate|].
  destruct (graph_analysis (tapinfo_ d)); [done|discriminate].
Qed.

(** X19: when [updateWidgets] enables the prepare button it enables the
    sequence button too, and then rows are selected and there is a graph, so
    [prepareFilter] passes its guard; if moreover the selected rows all have
    a call, [prepareFilter] emits a filter and, with the file open,
    [showSequence] hands the graph over. *)
Theorem enabled_buttons_run_slots {E : External} (d : VoipCallsDialog) :
  prepare_button_enabled (updateWidgets d) = true ->
  sequence_button_enabled (updateWidgets d) = true
  /\ selectedItems (callTreeWidget d) <> []
  /\ graph_analysis (tapinfo_ d) <> None
  /\ prepareFilter d <> Returned None
  /\ (Forall has_call (selectedItems (callTreeWidget d)) ->
      (exists f, prepareFilter d = Returned (Some f))
      /\ (file_closed_ d = false ->
          exists d' ga', showSequence d = Returned (d', Some ga'))).
Proof.
  intros Hen. destruct (updateWidgets_enabled d Hen) as [Hne Hga].
  split; [exact Hen|]. split; [exact Hne|]. split; [exact Hga|].
  destruct (graph_analysis (tapinfo_ d)) as [ga|] eqn:Hgraph; [|done].
  split.
  - unfold prepareFilter. rewrite Hgraph.
    destruct (selectedItems (callTreeWidget d)); [done|].
    by destruct (collect_selected_calls _ _).
  - intros Hsel. split.
    + rewrite (prepareFilter_selected d ga Hgraph Hne Hsel). by eexists.
    + intros Hfc. unfold showSequence.
      rewrite Hfc, (collect_selected_calls_ok _ ∅ Hsel), Hgraph.
      by eexists _, _.
Qed.

Lemma enabled_buttons_run_slots_witness :
  exists f, prepareFilter dialog_one_selected = Returned (Some f).
Proof.
  apply (proj2 (proj2 (proj2 (proj2
           (enabled_buttons_run_slots (E := spec_External)
              dialog_one_selected eq_refl))))).
  repeat constructor; by eexists.
Defined.

(** X20: [updateWidgets] touches nothing but the buttons, always leaves
    the player button disabled with the text "No Audio" and the sequence
    button like the prepare button; doing it twice is doing it once; and
    after [updateCalls] the buttons are as [updateWidgets] alone would have
    set them, a refresh leaving the selection and the graph pointer as they
    were. *)
Theorem updateWidgets_buttons {E : External} (d : VoipCallsDialog) :
  callTreeWidget (updateWidgets d) = callTreeWidget d
  /\ tapinfo_ (updateWidgets d) = tapinfo_ d
  /\ file_closed_ (updateWidgets d) = file_closed_ d
  /\ player_button_enabled (updateWidgets d) = false
  /\ player_button_text (updateWidgets d) = "No Audio"
  /\ sequence_button_enabled (updateWidgets d)
     = prepare_button_enabled (updateWidgets d)
  /\ updateWidgets (updateWidgets d) = updateWidgets d
  /\ updateWidgets (updateCalls d) = updateCalls d
  /\ prepare_button_enabled (updateCalls d)
     = prepare_button_enabled (updateWidgets d)
  /\ sequence_button_enabled (updateCalls d)
     = sequence_button_enabled (updateWidgets d).
Proof.
  do 8 (split; [reflexivity|]).
  pose proof (selected_count_after_refresh d) as Hlen.
  change (callTreeWidget (updateCalls d))
    with (updateCalls_tree (callsinfos (tapinfo_ d)) (callTreeWidget d))
    in Hlen.
  unfold updateCalls, updateWidgets.
  cbn [prepare_button_enabled sequence_button_enabled callTreeWidget tapinfo_].
  by rewrite Hlen.
Qed.

(** ** Ties keep their order *)

Section Stability.
Context {A : Type} (lt : A -> A -> bool).

Lemma precedes_cons (a x y : A) (l : list A) :
  precedes x y l -> precedes x y (a :: l).
Proof. intros (l1 & l2 & l3 & ->). by exists (a :: l1), l2, l3. Qed.

Lemma stable_insert_keeps_elem (z y : A) (p q : list A) :
  exists p' q', stable_insert lt z (p ++ y :: q) = p' ++ y :: q'.
Proof.
  induction p as [|a p (p' & q' & IH)]; simpl.
  - destruct (lt y z).
    + by exists [], (stable_insert lt z q).
    + by exists [z], q.
  - destruct (lt a z).
    + exists (a :: p'), q'. by rewrite IH.
    + by exists (z :: a :: p), q.
Qed.

Lemma stable_insert_keeps_order (z x y : A) (s : list A) :
  precedes x y s -> precedes x y (stable_insert lt z s).
Proof.
  intros (l1 & l2 & l3 & ->).
  induction l1 as [|a l1 IH]; simpl.
  - destruct (lt x z).
    + destruct (stable_insert_keeps_elem z y l2 l3) as (p' & q' & ->).
      by exists [], p', q'.
    + by exists [z], l2, l3.
  - destruct (lt a z).
    + by apply precedes_cons.
    + by exists (z :: a :: l1), l2, l3.
Qed.

Lemma stable_insert_before (x y : A) (p q : list A) :
  lt y x = false -> precedes x y (stable_insert lt x (p ++ y :: q)).
Proof.
  intros Hyx. induction p as [|a p IH]; simpl.
  - rewrite Hyx. by exists [], [], q.
  - destruct (lt a x).
    + by apply precedes_cons.
    + by exists [], (a :: p), q.
Qed.

(** The sort is stable: an element stays before a later one that is not
    less than it. *)
Lemma stable_sort_stable (x y : A) (l : list A) :
  precedes x y l -> lt y x = false -> precedes x y (stable_sort lt l).
Proof.
  intros (l1 & l2 & l3 & ->) Hyx.
  induction l1 as [|a l1 IH].
  - change (precedes x y (stable_insert lt x (stable_sort lt (l2 ++ y :: l3)))).
    assert (y ∈ stable_sort lt (l2 ++ y :: l3)) as Hin.
    { rewrite stable_sort_perm. set_solver. }
    apply list_elem_of_split in Hin as (p & q & ->).
    by apply stable_insert_before.
  - change (precedes x y
              (stable_insert lt a (stable_sort lt (l1 ++ x :: l2 ++ y :: l3)))).
    by apply stable_insert_keeps_order.
Qed.

End Stability.

Lemma precedes_fmap {A B} (f : A -> B) (x y : A) (l : list A) :
  precedes x y l -> precedes (f x) (f y) (f <$> l).
Proof.
  intros (l1 & l2 & l3 & ->).
  exists (f <$> l1), (f <$> l2), (f <$> l3).
  by rewrite !fmap_app, !fmap_cons, !fmap_app, !fmap_cons.
Qed.

Lemma precedes_app_r {A} (x y : A) (l l' : list A) :
  precedes x y l' -> precedes x y (l ++ l').
Proof.
  intros (l1 & l2 & l3 & ->). exists (l ++ l1), l2, l3.
  by rewrite <- app_assoc.
Qed.

(** X21: the refresh keeps tied rows in the order they had: a row that
    stood before another row, or was added before it, still stands before it
    after [updateCalls] unless the other row is less than it under the sort
    column and direction.  So calls that tie under the sort key are shown in
    the order of the call list when they are added by the same refresh. *)
Theorem refresh_is_stable {E : External} (d : VoipCallsDialog) :
  let tree := callTreeWidget d in
  let cmp := itemCompare (sortColumn tree) (sortOrder tree) in
  (forall a b : VoipCallsTreeWidgetItem,
     precedes a b
       (drawData <$>
          (topLevelItems tree
           ++ ((fun c => new_VoipCallsTreeWidgetItem (Some c))
                 <$> calls_to_add d))) ->
     cmp b a = false ->
     precedes a b (rows_after_refresh d))
  /\ (forall c1 c2 : voip_calls_info_t,
        precedes c1 c2 (calls_to_add d) ->
        cmp (new_VoipCallsTreeWidgetItem (Some c2))
            (new_VoipCallsTreeWidgetItem (Some c1)) = false ->
        precedes (new_VoipCallsTreeWidgetItem (Some c1))
          (new_VoipCallsTreeWidgetItem (Some c2)) (rows_after_refresh d)).
Proof.
  intros tree cmp.
  assert (forall a b,
            precedes a b
              (drawData <$>
                 (topLevelItems tree
                  ++ ((fun c => new_VoipCallsTreeWidgetItem (Some c))
                        <$> calls_to_add d))) ->
            cmp b a = false -> precedes a b (rows_after_refresh d)) as Hgen.
  { intros a b Hab Hba. unfold rows_after_refresh, calls_to_add in *.
    change (callTreeWidget (updateCalls d))
      with (updateCalls_tree (callsinfos (tapinfo_ d)) (callTreeWidget d)).
    rewrite updateCalls_tree_closed. cbv zeta. cbn [topLevelItems].
    unfold sortItems. by apply stable_sort_stable. }
  split; [exact Hgen|].
  intros c1 c2 Hc Hcmp. apply Hgen; [|exact Hcmp].
  rewrite fmap_app. apply precedes_app_r.
  pose proof (precedes_fmap
                (fun c => drawData (new_VoipCallsTreeWidgetItem (Some c)))
                c1 c2 _ Hc) as Hrows.
  cbv beta in Hrows.
  unfold new_VoipCallsTreeWidgetItem at 1 2 in Hrows.
  rewrite !drawData_idempotent in Hrows.
  by rewrite <- list_fmap_compose.
Qed.

Lemma refresh_is_stable_witness :
  precedes (new_VoipCallsTreeWidgetItem (E := spec_External) (Some call_2))
    (new_VoipCallsTreeWidgetItem (E := spec_External) (Some call_1))
    (rows_after_refresh (E := spec_External) dialog_fresh).
Proof.
  apply (proj2 (refresh_is_stable (E := spec_External) dialog_fresh)).
  - by exists [], [], [].
  - reflexivity.
Defined.

(** ** Growing event lists and changing selections *)

Lemma or_joined_tail_app (l l' : list QString.t) :
  or_joined_tail (l ++ l') = or_joined_tail l +:+ or_joined_tail l'.
Proof.
  induction l as [|c l IH]; [reflexivity|].
  change (" or " +:+ c +:+ or_joined_tail (l ++ l')
          = (" or " +:+ c +:+ or_joined_tail l) +:+ or_joined_tail l').
  by rewrite IH, !append_assoc.
Qed.

Lemma concat_or_app (c c' : QString.t) (l l' : list QString.t) :
  String.concat " or " ((c :: l) ++ c' :: l')
  = String.concat " or " (c :: l) +:+ " or " +:+ String.concat " or " (c' :: l').
Proof.
  change ((c :: l) ++ c' :: l') with (c :: (l ++ c' :: l')).
  rewrite !concat_or_cons, or_joined_tail_app, append_assoc.
  reflexivity.
Qed.

(** X22: the filter of a longer event list is made of the filters of its
    parts: when more events follow, the clauses of the events seen so far
    stay in front, and the clauses of the further events come behind one
    join token; a part without matching event adds nothing, not even a join
    token. *)
Theorem filter_of_appended_events (sel : gset Z)
    (evs more : list seq_analysis_item_t) :
  let filter_of l :=
    prepareFilter_walk sel (Some <$> l) EmptyString EmptyString in
  (matching_events sel evs = [] -> filter_of (evs ++ more) = filter_of more)
  /\ (matching_events sel more = [] -> filter_of (evs ++ more) = filter_of evs)
  /\ (matching_events sel evs <> [] -> matching_events sel more <> [] ->
      filter_of (evs ++ more)
      = filter_of evs +:+ " or " +:+ filter_of more).
Proof.
  intros filter_of. subst filter_of. cbv beta.
  rewrite !walk_from_empty, !leading_data_Some.
  unfold matching_events. rewrite filter_app.
  split; [by intros ->|]. split.
  - intros ->. by rewrite (right_id_L [] (++)).
  - intros Hevs Hmore.
    destruct (filter _ evs) as [|e l]; [done|].
    destruct (filter _ more) as [|e' l']; [done|].
    rewrite fmap_app, !fmap_cons. apply concat_or_app.
Qed.

Lemma filter_of_appended_events_witness :
  prepareFilter_walk {[1]} (Some <$> (sample_events ++ [sample_event 1 12]))
    EmptyString EmptyString
  = prepareFilter_walk {[1]} (Some <$> sample_events) EmptyString EmptyString
    +:+ " or "
    +:+ prepareFilter_walk {[1]} (Some <$> [sample_event 1 12])
          EmptyString EmptyString.
Proof.
  apply (proj2 (proj2 (filter_of_appended_events {[1]} sample_events
                         [sample_event 1 12]))); discriminate.
Defined.

(** X23: the display flags [showSequence] sets depend on the current
    selection only, never on the flags set before: walking the graph for one
    selection and then for another leaves it as walking it for the second
    alone, and walking it twice for the same selection as walking it once; no
    event is lost to a later selection. *)
Theorem showSequence_walk_overrides (sel1 sel2 : gset Z)
    (nodes : GList seq_analysis_item_t) :
  showSequence_walk sel2 (showSequence_walk sel1 nodes)
  = showSequence_walk sel2 nodes
  /\ showSequence_walk sel1 (showSequence_walk sel1 nodes)
     = showSequence_walk sel1 nodes
  /\ leading_data (showSequence_walk sel2 (showSequence_walk sel1 nodes))
     = mark_display sel2 <$> leading_data nodes.
Proof.
  assert (forall s1 s2,
            showSequence_walk s2 (showSequence_walk s1 nodes)
            = showSequence_walk s2 nodes) as Hover.
  { intros s1 s2. induction nodes as [|[e|] nodes IH]; csimpl; try reflexivity.
    by rewrite IH. }
  split; [apply Hover|]. split; [apply Hover|].
  by rewrite Hover, leading_data_showSequence_walk.
Qed.

(** ** Ties of rows with calls *)

Lemma compare_negatively_transitive {A} (cmp : A -> A -> comparison) :
  (forall a b, cmp b a = CompOpp (cmp a b)) ->
  (forall a b c, cmp a b = Lt -> cmp b c = Lt -> cmp a c = Lt) ->
  (forall a b, cmp a b = Eq -> a = b) ->
  negatively_transitive (fun a b => cmp a b = Lt).
Proof.
  intros Hanti Htrans Heq a b c Hab Hbc Hac.
  destruct (cmp a b) eqn:Hcab; [|done|].
  - apply Heq in Hcab as ->. done.
  - apply Hbc, (Htrans b a c); [|exact Hac]. by rewrite Hanti, Hcab.
Qed.

Lemma bytes_compare_antisym (l1 l2 : list Z) :
  bytes_compare l2 l1 = CompOpp (bytes_compare l1 l2).
Proof.
  revert l2. induction l1 as [|x l1 IH]; intros [|y l2]; simpl; try done.
  rewrite (Z.compare_antisym x y).
  destruct (x ?= y); simpl; [apply IH|done|done].
Qed.

Lemma bytes_compare_eq (l1 l2 : list Z) :
  bytes_compare l1 l2 = Eq -> l1 = l2.
Proof.
  revert l2. induction l1 as [|x l1 IH]; intros [|y l2]; simpl; try done.
  destruct (Z.compare_spec x y) as [->|_|_]; try done.
  intros Hc. by rewrite (IH l2 Hc).
Qed.

Lemma spec_weak_orders : ExternalWeakOrders spec_External.
Proof.
  split; simpl.
  - intros a b c. unfold spec_nstime_cmp.
    rewrite !Z_of_comparison_neg, !Z.compare_lt_iff. lia.
  - intros a b c. unfold spec_cmp_address. rewrite !Z_of_comparison_neg.
    apply (compare_negatively_transitive bytes_compare
             bytes_compare_antisym bytes_compare_trans bytes_compare_eq).
  - assert (forall s1 s2,
              spec_variantLessThan s1 s2 = true <-> String.compare s1 s2 = Lt)
      as Hlt.
    { intros s1 s2. unfold spec_variantLessThan.
      by destruct (String.compare s1 s2). }
    intros a b c. rewrite !Hlt.
    apply (compare_negatively_transitive String.compare).
    + intros s1 s2. apply String.compare_antisym.
    + apply string_compare_trans.
    + apply String.compare_eq_iff.
Qed.

(** X24: among rows that have a call the ties of the comparator are
    transitive, under every column, as soon as the helpers that compare
    times, addresses and texts are negatively transitive (as orders of keys
    are): if neither of two rows is less than the other, and the same holds
    for the second and a third, it holds for the first and the third.  With
    irreflexivity and transitivity this makes the comparator a strict weak
    ordering on such rows. *)
Theorem ties_transitive_on_rows_with_calls {E : External} (column : Z)
    (a b c : VoipCallsTreeWidgetItem) :
  ExternalWeakOrders E ->
  has_call a -> has_call b -> has_call c ->
  (operator_lt column a b = false -> operator_lt column b c = false ->
   operator_lt column a c = false)
  /\ (tied column a b -> tied column b c -> tied column a c).
Proof.
  intros [Hn Ha Hv] [ca Hca] [cb Hcb] [cc Hcc].
  assert (forall x y z cx cy cz,
            user_data x = Some cx -> user_data y = Some cy ->
            user_data z = Some cz ->
            operator_lt column x y = false -> operator_lt column y z = false ->
            operator_lt column x z = false) as Hneg.
  { intros x y z cx cy cz Hx Hy Hz.
    unfold operator_lt, QTreeWidgetItem_operator_lt. rewrite Hx, Hy, Hz.
    repeat case_match; rewrite ?Z.ltb_ge, ?not_true_iff_false.
    - rewrite <- !Z.nlt_ge. apply Hn.
    - rewrite <- !Z.nlt_ge. apply Hn.
    - rewrite <- !Z.nlt_ge. apply Ha.
    - lia.
    - rewrite <- !not_true_iff_false. apply Hv. }
  split; [by apply (Hneg a b c ca cb cc)|].
  intros [Hab Hba] [Hbc Hcb']. split.
  - by apply (Hneg a b c ca cb cc).
  - by apply (Hneg c b a cc cb ca).
Qed.

Lemma ties_transitive_on_rows_with_calls_witness :
  tied (E := spec_External) start_time_col_ row_1 row_1.
Proof.
  apply (proj2 (ties_transitive_on_rows_with_calls (E := spec_External)
                  start_time_col_ row_1 row_2 row_1 spec_weak_orders
                  ltac:(by eexists) ltac:(by eexists) ltac:(by eexists)));
    by split.
Defined.
